(** * GraphQL-TaskManager: the server's query resolver and REST handlers

    A shallow embedding of the server half of [App.tsx]: the Sequelize
    models [Task] and [Tag] with their [TaskTags] join table, the GraphQL
    resolver [RootQuery.tasks.resolve] with the [tags] field resolver of
    [TaskType], and the three Express handlers [app.post('/tasks')],
    [app.put('/tasks/:id')] and [app.delete('/tasks/:id')]; and of the
    functions of the client that build what is sent to them.

    The relational store is outside the repository.  Its behaviour is
    written out here as Sequelize and SQLite have it:
    - tables are lists of rows in rowid order; the integer keys are
      [AUTOINCREMENT], so a key is never issued twice;
    - [allowNull: false] makes [create] and [save] reject a [null] or
      absent title with a validation error, before anything is written;
    - [save] leaves an attribute that is [undefined] out of its UPDATE;
    - a [DATEONLY] attribute goes through moment: [set] formats a value
      that is truthy, and what is written to the column is the value
      formatted as ['YYYY-MM-DD'], so the empty string is stored as the
      text ['Invalid date'];
    - [LIKE] is SQLite's pattern match, with [%] and [_] as wildcards and
      ASCII letters compared without case;
    - [ORDER BY] sorts text bytewise, NULL first;
    - an [include] is a left join, and one carrying a [where] an inner
      join whose condition also restricts the rows joined to each task;
      the tags joined to a task come in the order of their keys;
    - [addTag] stores an association once, [setTags([])] deletes a task's
      associations, [findOrCreate] looks a tag up by its exact name;
    - deleting a task deletes its [TaskTags] rows (the join table's
      foreign key cascades).

    Limits of the model.  Text is a sequence of bytes, the UTF-8 encoding
    SQLite stores; [LIKE] and [trim] take characters off it as SQLite
    and JavaScript do off well-formed text.
    Request bodies carry a string, [null] or nothing in each scalar
    field, as the client's types have it, and strings in a [tags] array;
    a number, a boolean, an object or an array in a scalar field is not
    modelled.  Of the text moment can be given as a due date the model
    covers calendar dates written ['YYYY-MM-DD'] and text moment cannot
    read as a date; dates in other notations are left out.  The
    timestamps [createdAt] and [updatedAt] are left out.  Requests run
    one after the other, and the store itself does not fail, so the only
    exception is Sequelize's validation error. *)

From Stdlib Require Import List String Ascii Bool Arith NArith Lia Sorted.
Import ListNotations.
Local Open Scope string_scope.
Local Open Scope list_scope.
Local Open Scope nat_scope.

(** ** JavaScript values *)

(** A scalar field of a JSON request body, as the handlers destructure it:
    absent ([undefined]), [null], or a string. *)
Inductive jsval : Type :=
| JUndefined
| JNull
| JStr (s : string).

(** The [tags] field of a request body.  [TagsNotArray] stands for any
    value that is truthy but fails [Array.isArray]. *)
Inductive tagsval : Type :=
| TagsMissing
| TagsNotArray
| TagsArray (names : list string).

(** [if (q)] on a GraphQL [String] argument: [null], [undefined] and the
    empty string are falsy. *)
Definition truthy (v : option string) : bool :=
  match v with
  | Some s => negb (String.eqb s "")
  | None => false
  end.

(** [tags && Array.isArray(tags)] *)
Definition is_array (t : tagsval) : bool :=
  match t with
  | TagsArray _ => true
  | _ => false
  end.

(** What a column holds after a JavaScript value is bound to it. *)
Definition to_column (v : jsval) : option string :=
  match v with
  | JStr s => Some s
  | _ => None
  end.

Definition of_column (c : option string) : jsval :=
  match c with
  | Some s => JStr s
  | None => JNull
  end.

(** ** Dates: moment, as [DATEONLY] calls it *)

Module Moment.

Definition digit_value (c : ascii) : option nat :=
  let n := nat_of_ascii c in
  if Nat.leb 48 n && Nat.leb n 57 then Some (n - 48) else None.

Definition number2 (a b : ascii) : option nat :=
  match digit_value a, digit_value b with
  | Some x, Some y => Some (10 * x + y)
  | _, _ => None
  end.

Definition is_leap_year (y : nat) : bool :=
  ((y mod 4 =? 0) && negb (y mod 100 =? 0)) || (y mod 400 =? 0).

Definition days_in_month (y m : nat) : nat :=
  match m with
  | 1 | 3 | 5 | 7 | 8 | 10 | 12 => 31
  | 4 | 6 | 9 | 11 => 30
  | 2 => if is_leap_year y then 29 else 28
  | _ => 0
  end.

(** Year, month and day name a day of the calendar. *)
Definition calendar_date (y m d : nat) : bool :=
  Nat.leb 1 m && Nat.leb m 12 && Nat.leb 1 d && Nat.leb d (days_in_month y m).

(** The numbers in a text of the shape [YYYY-MM-DD]. *)
Definition parse (s : string) : option (nat * nat * nat) :=
  match s with
  | String y1 (String y2 (String y3 (String y4 (String h1
      (String m1 (String m2 (String h2
        (String d1 (String d2 EmptyString))))))))) =>
      if Ascii.eqb h1 "-" && Ascii.eqb h2 "-" then
        match number2 y1 y2, number2 y3 y4, number2 m1 m2, number2 d1 d2 with
        | Some yh, Some yl, Some m, Some d => Some (100 * yh + yl, m, d)
        | _, _, _, _ => None
        end
      else None
  | _ => None
  end.

Definition is_valid (s : string) : bool :=
  match parse s with
  | Some (y, m, d) => calendar_date y m d
  | None => false
  end.

(** [moment(s).format('YYYY-MM-DD')] on the texts the model covers: a
    calendar date written [YYYY-MM-DD] reads as itself, and a text
    moment cannot read as a date, the empty one included, gives
    ['Invalid date'].  Texts moment reads as a date in another notation
    (['2026-01'], a date with a time, an RFC 2822 date, what the
    [Date] constructor accepts) are outside the model. *)
Definition format (s : string) : string :=
  if is_valid s then s else "Invalid date".

End Moment.

(** The two hooks of the [DATEONLY] type: what [set] keeps of a value
    ([_sanitize]: a truthy value is formatted, a falsy one kept), and
    the text an INSERT or UPDATE binds for a value that is not [null]
    ([_stringify]). *)
Module DATEONLY.

Definition sanitize (v : jsval) : jsval :=
  match v with
  | JStr s => if String.eqb s "" then v else JStr (Moment.format s)
  | _ => v
  end.

Definition stringify (s : string) : string := Moment.format s.

End DATEONLY.

(** What a [DATEONLY] column holds after a JavaScript value is bound to
    it. *)
Definition to_date_column (v : jsval) : option string :=
  option_map DATEONLY.stringify (to_column v).

(** ** SQLite: pattern matching and ordering *)

Module Sqlite.

(** ASCII lower case, the only case folding the built-in [LIKE] does. *)
Definition to_lower (c : ascii) : ascii :=
  let n := nat_of_ascii c in
  if Nat.leb 65 n && Nat.leb n 90 then ascii_of_nat (n + 32) else c.

Definition char_eq_nocase (a b : ascii) : bool :=
  Ascii.eqb (to_lower a) (to_lower b).

(** Text is UTF-8.  A byte [10xxxxxx] continues the character begun
    before it; a byte from [0xC0] on begins a character of several
    bytes; an ASCII byte is a character. *)
Definition is_continuation (c : ascii) : bool :=
  let n := nat_of_ascii c in
  Nat.leb 128 n && Nat.ltb n 192.

Definition is_lead (c : ascii) : bool := Nat.leb 192 (nat_of_ascii c).

(** The text behind the continuation bytes at its front. *)
Fixpoint skip_continuation (s : string) : string :=
  match s with
  | EmptyString => EmptyString
  | String c s' => if is_continuation c then skip_continuation s' else s
  end.

(** [s LIKE p] without an escape character: [%] matches any run of
    characters, [_] exactly one character (an ASCII byte, or a lead byte
    and the continuation bytes behind it), any other byte itself up to
    ASCII case.  The run of a [%] is tried at every byte; a position
    inside a character matches nothing, since neither [_] nor the first
    byte of a character matches a continuation byte. *)
Fixpoint like (p : string) : string -> bool :=
  match p with
  | EmptyString =>
      fun s => match s with EmptyString => true | String _ _ => false end
  | String c p' =>
      if Ascii.eqb c "%" then
        fix star (s : string) : bool :=
          like p' s
          || match s with
             | EmptyString => false
             | String _ s' => star s'
             end
      else if Ascii.eqb c "_" then
        fun s => match s with
                 | EmptyString => false
                 | String d s' =>
                     if is_continuation d then false
                     else if is_lead d then like p' (skip_continuation s')
                     else like p' s'
                 end
      else
        fun s => match s with
                 | EmptyString => false
                 | String d s' => char_eq_nocase c d && like p' s'
                 end
  end.

(** [col LIKE p] on a nullable column: NULL is not a match. *)
Definition like_column (col : option string) (p : string) : bool :=
  match col with
  | Some s => like p s
  | None => false
  end.

(** [ORDER BY col ASC] on a nullable text column: NULL sorts before
    every value, values compare bytewise. *)
Definition asc_leb (a b : option string) : bool :=
  match a, b with
  | None, _ => true
  | Some _, None => false
  | Some x, Some y => String.leb x y
  end.

(** The rowid an [AUTOINCREMENT] key gives the next row: one more than
    the largest rowid the table has ever held. *)
Definition next_rowid (seq : nat) (ids : list nat) : nat :=
  S (Nat.max seq (list_max ids)).

(** Integer keys in the order an index on them is read: ascending. *)
Fixpoint insert_key (k : nat) (l : list nat) : list nat :=
  match l with
  | [] => [k]
  | x :: l' => if Nat.leb k x then k :: l else x :: insert_key k l'
  end.

Definition index_order (l : list nat) : list nat :=
  fold_right insert_key [] l.

Section OrderBy.
Context {A : Type} (key : A -> option string).

Fixpoint insert_row (x : A) (l : list A) : list A :=
  match l with
  | [] => [x]
  | y :: l' =>
      if asc_leb (key y) (key x) then y :: insert_row x l'
      else x :: y :: l'
  end.

(** Rows with equal keys keep the order they are read in. *)
Definition order_by (l : list A) : list A :=
  fold_left (fun acc x => insert_row x acc) l [].
End OrderBy.

End Sqlite.

(** ** The schema *)

(** [Task.init]: [title] is [allowNull: false], the other columns are
    nullable, [status] defaults to ['pending']. *)
Record TaskRow : Type := {
  id : nat;
  title : string;
  description : option string;
  due_date : option string;
  location : option string;
  status : option string
}.

(** [Tag.init]: Sequelize adds the integer key; [name] is unique and not
    null. *)
Record TagRow : Type := {
  tag_id : nat;
  tag_name : string
}.

(** The tables, and SQLite's [sqlite_sequence] entry of each
    autoincrement key.  A [TaskTags] row is [(TaskId, TagId)]. *)
Record Store : Type := {
  Tasks : list TaskRow;
  Tags : list TagRow;
  TaskTags : list (nat * nat);
  task_seq : nat;
  tag_seq : nat
}.

(** [sequelize.sync({ force: true })] *)
Definition empty_store : Store :=
  {| Tasks := []; Tags := []; TaskTags := []; task_seq := 0; tag_seq := 0 |}.

(** ** Store calls: state, exceptions, and a round-trip counter *)

Record World : Type := {
  store : Store;
  round_trips : nat
}.

Inductive Exn : Type :=
| SequelizeValidationError (msg : string).

(** An awaited computation: it may throw, and what it wrote before
    throwing stays written (no handler opens a transaction). *)
Definition Db (A : Type) : Type := World -> (Exn + A) * World.

Definition ret {A} (a : A) : Db A := fun w => (inr a, w).

Definition bind {A B} (m : Db A) (k : A -> Db B) : Db B :=
  fun w =>
    match m w with
    | (inl e, w') => (inl e, w')
    | (inr a, w') => k a w'
    end.

Definition throw {A} (e : Exn) : Db A := fun w => (inl e, w).

(** One call of a Sequelize method that reaches the database; each is
    counted as one round trip.  ([findAll] with an [include] sends a
    single SELECT.) *)
Definition round_trip {A} (f : Store -> (Exn + A) * Store) : Db A :=
  fun w =>
    let (r, s) := f (store w) in
    (r, {| store := s; round_trips := S (round_trips w) |}).

Declare Scope db_scope.
Delimit Scope db_scope with db.
Notation "x <- m ;; k" := (bind m (fun x => k))
  (at level 61, m at next level, right associativity) : db_scope.
Notation "m ;; k" := (bind m (fun _ => k))
  (at level 61, right associativity) : db_scope.
Local Open Scope db_scope.

(** [for (const x of xs) { await body(x) }] *)
Fixpoint for_of {A} (xs : list A) (body : A -> Db unit) : Db unit :=
  match xs with
  | [] => ret tt
  | x :: xs' => body x ;; for_of xs' body
  end.

(** ** Sequelize: model instances and the calls the server makes *)

(** The attribute values of a [Task] as JavaScript holds them: the object
    passed to [Task.create] and [task.set], and an instance's
    [dataValues]. *)
Record Values : Type := {
  v_title : jsval;
  v_description : jsval;
  v_status : jsval;
  v_due_date : jsval;
  v_location : jsval
}.

(** An eager-loaded [Tag], cut down to [attributes: ['name']]. *)
Record TagObj : Type := {
  name : string
}.

(** A [Task] instance.  [inst_Tags] is the [Tags] property, which only an
    [include] sets. *)
Record TaskInstance : Type := {
  pk : nat;
  dataValues : Values;
  inst_Tags : option (list TagObj)
}.

Definition values_of_row (r : TaskRow) : Values :=
  {| v_title := JStr (title r);
     v_description := of_column (description r);
     v_status := of_column (status r);
     v_due_date := of_column (due_date r);
     v_location := of_column (location r) |}.

Definition instance_of_row (r : TaskRow) : TaskInstance :=
  {| pk := id r; dataValues := values_of_row r; inst_Tags := None |}.

Definition notNull_violation : Exn :=
  SequelizeValidationError "notNull Violation: Task.title cannot be null".

(** The [defaultValue] of [status], applied when the key is absent. *)
Definition with_defaults (v : Values) : Values :=
  {| v_title := v_title v;
     v_description := v_description v;
     v_status := match v_status v with
                 | JUndefined => JStr "pending"
                 | s => s
                 end;
     v_due_date := v_due_date v;
     v_location := v_location v |}.

(** The values an instance holds once [set] has assigned them: each as
    given, the due date through the sanitizer of its type. *)
Definition set_values (v : Values) : Values :=
  {| v_title := v_title v;
     v_description := v_description v;
     v_status := v_status v;
     v_due_date := DATEONLY.sanitize (v_due_date v);
     v_location := v_location v |}.

(** [Task.create(values)]: the instance is built, validation follows
    ([allowNull: false] rejects a [title] that is [null] or absent, and
    nothing else), then one INSERT. *)
Definition Task_create (values : Values) : Db TaskInstance :=
  let v := set_values (with_defaults values) in
  match v_title v with
  | JStr t =>
      round_trip (fun st =>
        let new_id := Sqlite.next_rowid (task_seq st) (map id (Tasks st)) in
        let r := {| id := new_id;
                    title := t;
                    description := to_column (v_description v);
                    due_date := to_date_column (v_due_date v);
                    location := to_column (v_location v);
                    status := to_column (v_status v) |} in
        (inr {| pk := new_id; dataValues := v; inst_Tags := None |},
         {| Tasks := Tasks st ++ [r];
            Tags := Tags st;
            TaskTags := TaskTags st;
            task_seq := new_id;
            tag_seq := tag_seq st |}))
  | _ => throw notNull_violation
  end.

(** [Task.findByPk(id)] *)
Definition Task_findByPk (key : nat) : Db (option TaskInstance) :=
  round_trip (fun st =>
    (inr (option_map instance_of_row
            (find (fun r => id r =? key) (Tasks st))), st)).

(** [task.set(values)]: every listed key is assigned, also to
    [undefined]. *)
Definition Task_set (t : TaskInstance) (values : Values) : TaskInstance :=
  {| pk := pk t; dataValues := set_values values; inst_Tags := inst_Tags t |}.

(** What an UPDATE leaves in a nullable column: a value that is
    [undefined] is left out of the statement. *)
Definition write (v : jsval) (old : option string) : option string :=
  match v with
  | JUndefined => old
  | JNull => None
  | JStr s => Some s
  end.

(** The same for the [DATEONLY] column. *)
Definition write_date (v : jsval) (old : option string) : option string :=
  match v with
  | JUndefined => old
  | JNull => None
  | JStr s => Some (DATEONLY.stringify s)
  end.

Definition update_row (v : Values) (r : TaskRow) : TaskRow :=
  {| id := id r;
     title := match v_title v with JStr s => s | _ => title r end;
     description := write (v_description v) (description r);
     due_date := write_date (v_due_date v) (due_date r);
     location := write (v_location v) (location r);
     status := write (v_status v) (status r) |}.

(** [task.save()] on an instance read from the table: validation, then
    one UPDATE of the row with the instance's key. *)
Definition Task_save (t : TaskInstance) : Db unit :=
  match v_title (dataValues t) with
  | JStr _ =>
      round_trip (fun st =>
        (inr tt,
         {| Tasks := map (fun r => if id r =? pk t
                                   then update_row (dataValues t) r
                                   else r) (Tasks st);
            Tags := Tags st;
            TaskTags := TaskTags st;
            task_seq := task_seq st;
            tag_seq := tag_seq st |}))
  | _ => throw notNull_violation
  end.

Definition associated (task tag : nat) (tt : list (nat * nat)) : bool :=
  existsb (fun p => (fst p =? task) && (snd p =? tag)) tt.

(** [task.setTags(tags)]: associations to other tags are deleted, missing
    ones inserted. *)
Definition Task_setTags (t : TaskInstance) (tags : list TagRow) : Db unit :=
  round_trip (fun st =>
    let ids := map tag_id tags in
    let kept := filter (fun p => negb (fst p =? pk t)
                                 || existsb (Nat.eqb (snd p)) ids)
                       (TaskTags st) in
    let added := filter (fun g => negb (associated (pk t) g kept))
                        (nodup Nat.eq_dec ids) in
    (inr tt,
     {| Tasks := Tasks st;
        Tags := Tags st;
        TaskTags := kept ++ map (fun g => (pk t, g)) added;
        task_seq := task_seq st;
        tag_seq := tag_seq st |})).

(** [task.addTag(tag)]: inserts the association unless it is there. *)
Definition Task_addTag (t : TaskInstance) (tag : TagRow) : Db unit :=
  round_trip (fun st =>
    (inr tt,
     {| Tasks := Tasks st;
        Tags := Tags st;
        TaskTags := if associated (pk t) (tag_id tag) (TaskTags st)
                    then TaskTags st
                    else TaskTags st ++ [(pk t, tag_id tag)];
        task_seq := task_seq st;
        tag_seq := tag_seq st |})).

(** [Tag.findOrCreate({ where: { name } })]: the row and whether it was
    created. *)
Definition Tag_findOrCreate (n : string) : Db (TagRow * bool) :=
  round_trip (fun st =>
    match find (fun g => String.eqb (tag_name g) n) (Tags st) with
    | Some g => (inr (g, false), st)
    | None =>
        let new_id := Sqlite.next_rowid (tag_seq st) (map tag_id (Tags st)) in
        let g := {| tag_id := new_id; tag_name := n |} in
        (inr (g, true),
         {| Tasks := Tasks st;
            Tags := Tags st ++ [g];
            TaskTags := TaskTags st;
            task_seq := task_seq st;
            tag_seq := new_id |})
    end).

(** [Task.destroy({ where: { id } })]: the number of rows deleted.  The
    join table's foreign key deletes the task's associations with it. *)
Definition Task_destroy (key : nat) : Db nat :=
  round_trip (fun st =>
    (inr (List.length (filter (fun r => id r =? key) (Tasks st))),
     {| Tasks := filter (fun r => negb (id r =? key)) (Tasks st);
        Tags := Tags st;
        TaskTags := filter (fun p => negb (fst p =? key)) (TaskTags st);
        task_seq := task_seq st;
        tag_seq := tag_seq st |})).

(** The [Tag] rows joined to a task through [TaskTags].  The join reads
    the task's associations from the index on the join table's key
    [(TaskId, TagId)], so the tags come in the order of their keys. *)
Definition joined_tags (st : Store) (task : nat) : list TagRow :=
  let associations := filter (fun p => fst p =? task) (TaskTags st) in
  flat_map (fun tag => filter (fun g => tag_id g =? tag) (Tags st))
           (Sqlite.index_order (map snd associations)).

Definition tag_obj (g : TagRow) : TagObj := {| name := tag_name g |}.

(** [task.getTags()] *)
Definition Task_getTags (t : TaskInstance) : Db (list TagObj) :=
  round_trip (fun st => (inr (map tag_obj (joined_tags st (pk t))), st)).

Inductive Column : Type := ColTitle | ColDescription | ColLocation.

Definition column_value (c : Column) (r : TaskRow) : option string :=
  match c with
  | ColTitle => Some (title r)
  | ColDescription => description r
  | ColLocation => location r
  end.

(** [whereClause]: either [{}] or [{ [Op.or]: [ { col: { [Op.like]: p } },
    ... ] }]. *)
Definition WhereClause : Type := option (list (Column * string)).

Definition where_holds (w : WhereClause) (r : TaskRow) : bool :=
  match w with
  | None => true
  | Some alternatives =>
      existsb (fun cp => Sqlite.like_column (column_value (fst cp) r) (snd cp))
              alternatives
  end.

(** [includeClause[0]]: the [Tag] model, with [where: { name }] when
    [include_where] is set. *)
Record IncludeTag : Type := {
  include_where : option string
}.

(** The tags one task is loaded with.  A [where] on the include becomes
    part of the join condition, so only the tags it accepts are joined. *)
Definition included_tags (inc : IncludeTag) (st : Store) (r : TaskRow)
  : list TagRow :=
  match include_where inc with
  | None => joined_tags st (id r)
  | Some n => filter (fun g => String.eqb (tag_name g) n) (joined_tags st (id r))
  end.

(** An include with a [where] is [required]: the join is an inner join
    and tasks with no accepted tag drop out. *)
Definition join_keeps (inc : IncludeTag) (tags : list TagRow) : bool :=
  match include_where inc with
  | None => true
  | Some _ => match tags with [] => false | _ :: _ => true end
  end.

(** The rows of the SELECT that [findAll] sends, each task with the
    tags joined to it: filter, join, order. *)
Definition select_rows (w : WhereClause) (inc : IncludeTag) (st : Store)
  : list (TaskRow * list TagRow) :=
  let selected := filter (where_holds w) (Tasks st) in
  let joined := map (fun r => (r, included_tags inc st r)) selected in
  let kept := filter (fun rt => join_keeps inc (snd rt)) joined in
  Sqlite.order_by (fun rt => due_date (fst rt)) kept.

(** The instance built from a task's rows, its [Tags] property set. *)
Definition loaded (rt : TaskRow * list TagRow) : TaskInstance :=
  {| pk := id (fst rt);
     dataValues := values_of_row (fst rt);
     inst_Tags := Some (map tag_obj (snd rt)) |}.

(** [Task.findAll({ where, include, order: [['due_date', 'ASC']] })]:
    one SELECT over the joined tables. *)
Definition Task_findAll (w : WhereClause) (inc : IncludeTag)
  : Db (list TaskInstance) :=
  round_trip (fun st => (inr (map loaded (select_rows w inc st)), st)).

(** ** The server *)

(** The tables once [init()] has run: five tasks, four tags, and the
    associations made by [addTags]. *)
Definition init_store : Store :=
  let task i t d dd l s :=
    {| id := i; title := t; description := Some d; due_date := Some dd;
       location := Some l; status := Some s |} in
  {| Tasks :=
       [ task 1 "牛乳を買う" "スーパーで牛乳と卵を買う" "2026-01-21"
              "近所のスーパー" "pending";
         task 2 "レポート提出" "月曜日の朝までに提出" "2026-01-26"
              "大学" "completed";
         task 3 "ランニング" "公園を5km走る" "2026-01-22"
              "中央公園" "pending";
         task 4 "図書館へ返却" "借りていた技術書と小説を返す" "2026-01-22"
              "市立図書館" "pending";
         task 5 "歯医者の定期検診" "午後3時に予約、保険証を忘れない"
              "2026-01-24" "駅前歯科クリニック" "pending" ];
     Tags :=
       [ {| tag_id := 1; tag_name := "買い物" |};
         {| tag_id := 2; tag_name := "家事" |};
         {| tag_id := 3; tag_name := "大学" |};
         {| tag_id := 4; tag_name := "健康" |} ];
     TaskTags := [ (1, 1); (1, 2); (2, 3); (3, 4) ];
     task_seq := 5;
     tag_seq := 4 |}.

(** *** GraphQL *)

(** [`%${q}%`] *)
Definition like_pattern (q : string) : string :=
  String.append "%" (String.append q "%").

(** The [whereClause] that [resolve] builds: empty unless [q] is truthy,
    then the three [LIKE] alternatives under [Op.or]. *)
Definition whereClause (q : option string) : WhereClause :=
  match q with
  | Some s =>
      if truthy q
      then Some [ (ColTitle, like_pattern s);
                  (ColDescription, like_pattern s);
                  (ColLocation, like_pattern s) ]
      else None
  | None => None
  end.

(** The [includeClause] that [resolve] builds: the [Tag] model, with
    [where: { name: tag }] when [tag] is truthy. *)
Definition includeClause (tag : option string) : IncludeTag :=
  {| include_where := if truthy tag then tag else None |}.

(** [RootQuery.fields.tasks.resolve] *)
Definition resolve (q tag : option string) : Db (list TaskInstance) :=
  Task_findAll (whereClause q) (includeClause tag).

(** [TaskType.fields.tags.resolve]: [parent.Tags || parent.getTags()].
    An array is truthy, also an empty one. *)
Definition tags_resolve (parent : TaskInstance) : Db (list TagObj) :=
  match inst_Tags parent with
  | Some eager => ret eager
  | None => Task_getTags parent
  end.

(** One task of the response to the client's [GetTasks] query. *)
Record TaskJson : Type := {
  json_id : nat;
  json_title : jsval;
  json_due_date : jsval;
  json_description : jsval;
  json_location : jsval;
  json_status : jsval;
  tags : list TagObj
}.

Definition select_fields (parent : TaskInstance) : Db TaskJson :=
  resolved <- tags_resolve parent ;;
  ret {| json_id := pk parent;
         json_title := v_title (dataValues parent);
         json_due_date := v_due_date (dataValues parent);
         json_description := v_description (dataValues parent);
         json_location := v_location (dataValues parent);
         json_status := v_status (dataValues parent);
         tags := resolved |}.

Fixpoint each {A B} (f : A -> Db B) (xs : list A) : Db (list B) :=
  match xs with
  | [] => ret []
  | x :: xs' => y <- f x ;; ys <- each f xs' ;; ret (y :: ys)
  end.

(** The query the client sends,
    [tasks(q: $q, tag: $tag) { id title due_date description location
    status tags { name } }], executed against the schema. *)
Definition GetTasks (q tag : option string) : Db (list TaskJson) :=
  found <- resolve q tag ;;
  each select_fields found.

(** *** REST *)

(** [req.body] *)
Record Body : Type := {
  body_title : jsval;
  body_description : jsval;
  body_status : jsval;
  body_due_date : jsval;
  body_location : jsval;
  body_tags : tagsval
}.

Inductive Response : Type :=
| json_task (task : TaskInstance)
| json_message (message : string)
| status_error (code : nat) (error : string).

Definition Handler : Type := World -> Response * World.

(** [try { ... } catch (e) { res.status(500).json(...) }] *)
Definition try_catch (body : Db Response) (caught : Response) : Handler :=
  fun w =>
    match body w with
    | (inr res, w') => (res, w')
    | (inl _, w') => (caught, w')
    end.

(** The loop both writing handlers run over a [tags] array. *)
Definition add_tags (task : TaskInstance) (names : list string) : Db unit :=
  for_of names (fun tagName =>
    found <- Tag_findOrCreate tagName ;;
    Task_addTag task (fst found)).

(** [app.post('/tasks', ...)] *)
Definition post_tasks (body : Body) : Handler :=
  try_catch
    (task <- Task_create {| v_title := body_title body;
                            v_description := body_description body;
                            v_status := JUndefined;
                            v_due_date := body_due_date body;
                            v_location := body_location body |} ;;
     match body_tags body with
     | TagsArray names => add_tags task names
     | _ => ret tt
     end ;;
     ret (json_task task))
    (status_error 500 "Create failed").

(** [app.put('/tasks/:id', ...)].  The route parameter is taken as the
    row key it denotes. *)
Definition put_tasks (key : nat) (body : Body) : Handler :=
  try_catch
    (found <- Task_findByPk key ;;
     match found with
     | None => ret (status_error 404 "Not found")
     | Some task =>
         let task := Task_set task {| v_title := body_title body;
                                      v_description := body_description body;
                                      v_status := body_status body;
                                      v_due_date := body_due_date body;
                                      v_location := body_location body |} in
         Task_save task ;;
         match body_tags body with
         | TagsArray names => Task_setTags task [] ;; add_tags task names
         | _ => ret tt
         end ;;
         ret (json_task task)
     end)
    (status_error 500 "Update failed").

(** [app.delete('/tasks/:id', ...)] *)
Definition delete_tasks (key : nat) : Handler :=
  try_catch
    (Task_destroy key ;;
     ret (json_message "Deleted"))
    (status_error 500 "Delete failed").

(** ** Running requests *)

Definition world_of (st : Store) : World := {| store := st; round_trips := 0 |}.

(** The store a handler leaves behind. *)
Definition after (h : Handler) (st : Store) : Store :=
  store (snd (h (world_of st))).

Definition response_of (h : Handler) (st : Store) : Response :=
  fst (h (world_of st)).

(** The answer to a [GetTasks] query on a store; a query throws
    nothing, so the empty list only ever stands for no match. *)
Definition answer (q tag : option string) (st : Store) : list TaskJson :=
  match fst (GetTasks q tag (world_of st)) with
  | inr l => l
  | inl _ => []
  end.

(** The commands a client can send. *)
Inductive Command : Type :=
| Create (body : Body)
| Update (key : nat) (body : Body)
| Delete (key : nat).

Definition handler_of (c : Command) : Handler :=
  match c with
  | Create body => post_tasks body
  | Update key body => put_tasks key body
  | Delete key => delete_tasks key
  end.

Definition run (cs : list Command) (st : Store) : Store :=
  fold_left (fun s c => after (handler_of c) s) cs st.

(** ** What is stated about the server *)

(** The keys of the tasks in an answer. *)
Definition ids (l : list TaskJson) : list nat := map json_id l.

(** The names of the tags associated with a task. *)
Definition tag_names (st : Store) (key : nat) : list string :=
  map tag_name (joined_tags st key).

(** A task has a tag named [x]: some [TaskTags] row links it to a [Tags]
    row of that name. *)
Definition has_tag (st : Store) (key : nat) (x : string) : Prop :=
  exists g, In (key, tag_id g) (TaskTags st) /\ In g (Tags st) /\ tag_name g = x.

(** The row a key names, if any. *)
Definition task_row (st : Store) (key : nat) : option TaskRow :=
  find (fun r => id r =? key) (Tasks st).

(** [q] is a substring of [s] up to ASCII letter case, as the
    specification words the free-text match. *)
Fixpoint prefix_nocase (q s : string) : bool :=
  match q, s with
  | EmptyString, _ => true
  | String a q', String b s' => Sqlite.char_eq_nocase a b && prefix_nocase q' s'
  | String _ _, EmptyString => false
  end.

Fixpoint contains_nocase (q s : string) : bool :=
  prefix_nocase q s
  || match s with
     | EmptyString => false
     | String _ s' => contains_nocase q s'
     end.

Definition contains_column (q : string) (col : option string) : bool :=
  match col with
  | Some s => contains_nocase q s
  | None => false
  end.

(** The specification's free-text match: [q] occurs in the title, the
    description or the location. *)
Definition matches_text (q : string) (r : TaskRow) : bool :=
  contains_nocase q (title r)
  || contains_column q (description r)
  || contains_column q (location r).

(** No [%] and no [_] in a search term. *)
Fixpoint no_wildcard (q : string) : bool :=
  match q with
  | EmptyString => true
  | String c q' =>
      negb (Ascii.eqb c "%") && negb (Ascii.eqb c "_") && no_wildcard q'
  end.

(** The constraints the schema declares, and what [AUTOINCREMENT] and
    [DATEONLY] keep: keys and tag names are unique, an association is
    stored once and links rows that exist, no key exceeds its sequence,
    and a due date is text as [DATEONLY] writes it. *)
Record consistent (st : Store) : Prop := {
  task_keys_unique : NoDup (map id (Tasks st));
  tag_keys_unique : NoDup (map tag_id (Tags st));
  tag_names_unique : NoDup (map tag_name (Tags st));
  associations_unique : NoDup (TaskTags st);
  associations_linked :
    forall p, In p (TaskTags st) ->
      In (fst p) (map id (Tasks st)) /\ In (snd p) (map tag_id (Tags st));
  task_keys_issued : forall k, In k (map id (Tasks st)) -> k <= task_seq st;
  tag_keys_issued : forall k, In k (map tag_id (Tags st)) -> k <= tag_seq st;
  due_dates_formatted :
    forall r d, In r (Tasks st) -> due_date r = Some d -> Moment.format d = d
}.

(** A body with the given title and tags and nothing else. *)
Definition titled (t : jsval) (tg : tagsval) : Body :=
  {| body_title := t;
     body_description := JUndefined;
     body_status := JUndefined;
     body_due_date := JUndefined;
     body_location := JUndefined;
     body_tags := tg |}.

(** The specification's scenario: on empty tables, create "Buy milk"
    tagged shopping and errand. *)
Definition buy_milk : Store :=
  after (post_tasks (titled (JStr "Buy milk") (TagsArray ["shopping"; "errand"])))
        empty_store.

(** The response object of a task read with its tags. *)
Definition json_of (rt : TaskRow * list TagRow) : TaskJson :=
  {| json_id := id (fst rt);
     json_title := JStr (title (fst rt));
     json_due_date := of_column (due_date (fst rt));
     json_description := of_column (description (fst rt));
     json_location := of_column (location (fst rt));
     json_status := of_column (status (fst rt));
     tags := map tag_obj (snd rt) |}.

(** The order of an answer: by the stored due date, [null] first. *)
Definition due_le (a b : TaskJson) : Prop :=
  Sqlite.asc_leb (to_column (json_due_date a)) (to_column (json_due_date b))
  = true.

(** [s] in ASCII lower case. *)
Fixpoint lower (s : string) : string :=
  match s with
  | EmptyString => EmptyString
  | String c s' => String (Sqlite.to_lower c) (lower s')
  end.

(** [q] occurs in [s] when letter case is ignored: some stretch of [s]
    reads as [q] once both are in lower case. *)
Definition occurs_nocase (q s : string) : Prop :=
  exists before mid behind,
    s = String.append before (String.append mid behind)
    /\ lower mid = lower q.

(** One task titled "abc", with no description, location or tag. *)
Definition abc_store : Store :=
  after (post_tasks (titled (JStr "abc") TagsMissing)) empty_store.

(** ** The handlers' effect on the tables

    The store each call leaves behind, written as functions of the store
    it starts from; the proofs relate the handlers to them. *)

(** The row [Tag.findOrCreate] returns. *)
Definition found_or_created (n : string) (st : Store) : TagRow :=
  match find (fun g => String.eqb (tag_name g) n) (Tags st) with
  | Some g => g
  | None => {| tag_id := Sqlite.next_rowid (tag_seq st) (map tag_id (Tags st));
               tag_name := n |}
  end.

(** The store [Tag.findOrCreate] leaves. *)
Definition with_tag (n : string) (st : Store) : Store :=
  match find (fun g => String.eqb (tag_name g) n) (Tags st) with
  | Some _ => st
  | None =>
      {| Tasks := Tasks st;
         Tags := Tags st ++ [found_or_created n st];
         TaskTags := TaskTags st;
         task_seq := task_seq st;
         tag_seq := tag_id (found_or_created n st) |}
  end.

(** The store [task.addTag] leaves. *)
Definition associate (task tag : nat) (st : Store) : Store :=
  {| Tasks := Tasks st;
     Tags := Tags st;
     TaskTags := if associated task tag (TaskTags st)
                 then TaskTags st
                 else TaskTags st ++ [(task, tag)];
     task_seq := task_seq st;
     tag_seq := tag_seq st |}.

(** The store the loop over a [tags] array leaves. *)
Fixpoint tagged (task : nat) (names : list string) (st : Store) : Store :=
  match names with
  | [] => st
  | n :: names' =>
      tagged task names'
             (associate task (tag_id (found_or_created n st)) (with_tag n st))
  end.

Definition with_tags (tg : tagsval) (task : nat) (st : Store) : Store :=
  match tg with
  | TagsArray names => tagged task names st
  | _ => st
  end.

(** The row [post_tasks] inserts for a body whose title is [t]. *)
Definition created_row (body : Body) (t : string) (st : Store) : TaskRow :=
  {| id := Sqlite.next_rowid (task_seq st) (map id (Tasks st));
     title := t;
     description := to_column (body_description body);
     due_date := to_date_column (body_due_date body);
     location := to_column (body_location body);
     status := Some "pending" |}.

Definition inserted (r : TaskRow) (st : Store) : Store :=
  {| Tasks := Tasks st ++ [r];
     Tags := Tags st;
     TaskTags := TaskTags st;
     task_seq := id r;
     tag_seq := tag_seq st |}.

(** The values [put_tasks] passes to [task.set]. *)
Definition body_values (body : Body) : Values :=
  {| v_title := body_title body;
     v_description := body_description body;
     v_status := body_status body;
     v_due_date := body_due_date body;
     v_location := body_location body |}.

(** The store [task.save] leaves. *)
Definition saved (key : nat) (v : Values) (st : Store) : Store :=
  {| Tasks := map (fun r => if id r =? key then update_row v r else r) (Tasks st);
     Tags := Tags st;
     TaskTags := TaskTags st;
     task_seq := task_seq st;
     tag_seq := tag_seq st |}.

(** The store [task.setTags([])] leaves. *)
Definition untagged (key : nat) (st : Store) : Store :=
  {| Tasks := Tasks st;
     Tags := Tags st;
     TaskTags := filter (fun p => negb (fst p =? key)) (TaskTags st);
     task_seq := task_seq st;
     tag_seq := tag_seq st |}.

(** The store [Task.destroy] leaves. *)
Definition destroyed (key : nat) (st : Store) : Store :=
  {| Tasks := filter (fun r => negb (id r =? key)) (Tasks st);
     Tags := Tags st;
     TaskTags := filter (fun p => negb (fst p =? key)) (TaskTags st);
     task_seq := task_seq st;
     tag_seq := tag_seq st |}.

(** A title the not-null validation rejects. *)
Definition title_missing (body : Body) : Prop :=
  body_title body = JUndefined \/ body_title body = JNull.

(** A value a request supplies is what the column holds afterwards; a
    field the request leaves out says nothing. *)
Definition overwritten (v : jsval) (col : option string) : Prop :=
  match v with
  | JStr s => col = Some s
  | JNull => col = None
  | JUndefined => True
  end.

(** ** Calendar dates as [DATEONLY] text *)

Definition digit (n : nat) : ascii := ascii_of_nat (48 + n).

Definition two_digits (n : nat) : string :=
  String (digit (n / 10)) (String (digit (n mod 10)) EmptyString).

Definition four_digits (n : nat) : string :=
  String.append (two_digits (n / 100)) (two_digits (n mod 100)).

(** ['YYYY-MM-DD'] *)
Definition iso_date (y m d : nat) : string :=
  String.append (four_digits y)
    (String "-" (String.append (two_digits m) (String "-" (two_digits d)))).

(** One calendar date is not after another. *)
Definition date_le (y m d y' m' d' : nat) : Prop :=
  y < y' \/ (y = y' /\ (m < m' \/ (m = m' /\ d <= d'))).

(** [overwritten] for the due date: [null] clears the column, and a
    calendar date written [YYYY-MM-DD] is what the column holds
    afterwards; of other text nothing is said. *)
Definition date_overwritten (v : jsval) (col : option string) : Prop :=
  match v with
  | JStr s =>
      forall y m d,
        y < 100 * 100 -> Moment.calendar_date y m d = true ->
        s = iso_date y m d -> col = Some s
  | JNull => col = None
  | JUndefined => True
  end.

(** The due date an instance holds once [set] has been given [v]: the
    value itself when it is absent, [null], the empty string or a
    calendar date written [YYYY-MM-DD]; of other text nothing is
    said. *)
Definition date_kept (v held : jsval) : Prop :=
  match v with
  | JStr s =>
      (s = "" -> held = JStr "")
      /\ (forall y m d,
            y < 100 * 100 -> Moment.calendar_date y m d = true ->
            s = iso_date y m d -> held = JStr s)
  | _ => held = v
  end.

(** The response is the task with the given key, holding the values of
    the request. *)
Definition answers_task (res : Response) (key : nat) (v : Values) : Prop :=
  exists task,
    res = json_task task
    /\ pk task = key
    /\ inst_Tags task = None
    /\ v_title (dataValues task) = v_title v
    /\ v_description (dataValues task) = v_description v
    /\ v_status (dataValues task) = v_status v
    /\ v_location (dataValues task) = v_location v
    /\ date_kept (v_due_date v) (v_due_date (dataValues task)).

(** Requests used as examples. *)

(** An update whose title is [null], with a description and a status and
    without a [tags] field. *)
Definition update_with_null_title : Body :=
  {| body_title := JNull;
     body_description := JStr "two litres";
     body_status := JStr "completed";
     body_due_date := JNull;
     body_location := JNull;
     body_tags := TagsMissing |}.

(** An update with a title whose [tags] field is not an array. *)
Definition update_without_tags : Body :=
  {| body_title := JStr "Buy oat milk";
     body_description := JStr "two litres";
     body_status := JStr "completed";
     body_due_date := JStr "2026-02-01";
     body_location := JUndefined;
     body_tags := TagsNotArray |}.

Definition first_update : Body :=
  titled (JStr "Buy milk") (TagsArray ["dairy"; "errand"]).

Definition second_update : Body :=
  titled (JStr "Buy milk") (TagsArray ["errand"; "later"]).

From Stdlib Require Import Permutation.

(** ** The client

    The functions of [App] that build what is sent to the server, over
    the same text: the UTF-8 bytes of what the browser holds. *)

(** The form state [TaskInput]. *)
Record TaskInput : Type := {
  form_title : string;
  form_description : string;
  form_due_date : string;
  form_location : string;
  tagsStr : string
}.

(** [initialFormState] *)
Definition initialFormState : TaskInput :=
  {| form_title := ""; form_description := ""; form_due_date := "";
     form_location := ""; tagsStr := "" |}.

(** White space in the sense of [String.prototype.trim], the WhiteSpace
    and LineTerminator characters of ECMAScript, each as its UTF-8
    bytes.  One byte: tab, line feed, vertical tab, form feed, carriage
    return, space. *)
Definition space1 (a : ascii) : bool :=
  let n := nat_of_ascii a in
  (Nat.leb 9 n && Nat.leb n 13) || (n =? 32).

(** Two bytes: U+00A0, the no-break space. *)
Definition space2 (a b : ascii) : bool :=
  (nat_of_ascii a =? 194) && (nat_of_ascii b =? 160).

(** Three bytes: U+1680; U+2000 to U+200A, U+2028, U+2029 and U+202F;
    U+205F; U+3000, the ideographic space; U+FEFF. *)
Definition space3 (a b c : ascii) : bool :=
  let x := nat_of_ascii a in
  let y := nat_of_ascii b in
  let z := nat_of_ascii c in
  ((x =? 225) && (y =? 154) && (z =? 128))
  || ((x =? 226) && (y =? 128)
      && ((Nat.leb 128 z && Nat.leb z 138)
          || (z =? 168) || (z =? 169) || (z =? 175)))
  || ((x =? 226) && (y =? 129) && (z =? 159))
  || ((x =? 227) && (y =? 128) && (z =? 128))
  || ((x =? 239) && (y =? 187) && (z =? 191)).

(** The text is one white-space character. *)
Definition white_space (s : string) : bool :=
  match s with
  | String a EmptyString => space1 a
  | String a (String b EmptyString) => space2 a b
  | String a (String b (String c EmptyString)) => space3 a b c
  | _ => false
  end.

(** [s.trimStart()]: the white-space characters at the front go. *)
Fixpoint trim_start (s : string) : string :=
  match s with
  | EmptyString => EmptyString
  | String a s1 =>
      if space1 a then trim_start s1
      else
        match s1 with
        | EmptyString => s
        | String b s2 =>
            if space2 a b then trim_start s2
            else
              match s2 with
              | EmptyString => s
              | String c s3 => if space3 a b c then trim_start s3 else s
              end
        end
  end.

(** [s.trimEnd()], from the end: once what follows a byte is trimmed,
    the byte and what is left either read as one white-space character,
    and then all of it was white space, or the byte stays. *)
Fixpoint trim_end (s : string) : string :=
  match s with
  | EmptyString => EmptyString
  | String a s' =>
      let t := String a (trim_end s') in
      if white_space t then EmptyString else t
  end.

(** [s.trim()] *)
Definition trim (s : string) : string := trim_end (trim_start s).

(** [s.split(sep)] for a one-character separator: the pieces between the
    separators, the empty ones included; one empty piece for the empty
    string. *)
Fixpoint split (sep : ascii) (s : string) : list string :=
  match s with
  | EmptyString => [EmptyString]
  | String c s' =>
      if Ascii.eqb c sep then EmptyString :: split sep s'
      else match split sep s' with
           | piece :: pieces => String c piece :: pieces
           | [] => [String c EmptyString]
           end
  end.

(** [parseTags]: [str.split(',').map(s => s.trim()).filter(s => s.length > 0)] *)
Definition parseTags (str : string) : list string :=
  filter (fun s => 0 <? String.length s) (map trim (split "," str)).

(** [names.join(', ')] *)
Definition join (names : list string) : string := String.concat ", " names.

(** [v || ''] on a field of a task object. *)
Definition or_empty (v : jsval) : string :=
  match v with
  | JStr s => s
  | _ => ""
  end.

(** [s || null] on a search box. *)
Definition or_null (s : string) : option string :=
  if String.eqb s "" then None else Some s.

(** [fetchTasksGraphQL]: the query with [q: searchQuery || null] and
    [tag: searchTag || null]. *)
Definition fetchTasksGraphQL (searchQuery searchTag : string)
  : Db (list TaskJson) :=
  GetTasks (or_null searchQuery) (or_null searchTag).

(** [toggleExpand]: the next [expandedIds]. *)
Definition toggleExpand (key : nat) (prev : list nat) : list nat :=
  if existsb (Nat.eqb key) prev
  then filter (fun tid => negb (tid =? key)) prev
  else prev ++ [key].

(** [handleCreate]: no request when the title is empty, else the POST
    body [{ ...newTask, tags: parseTags(newTask.tagsStr) }]. *)
Definition handleCreate (newTask : TaskInput) : option Body :=
  if String.eqb (form_title newTask) "" then None
  else Some {| body_title := JStr (form_title newTask);
               body_description := JStr (form_description newTask);
               body_status := JUndefined;
               body_due_date := JStr (form_due_date newTask);
               body_location := JStr (form_location newTask);
               body_tags := TagsArray (parseTags (tagsStr newTask)) |}.

(** [startEdit]: the edit form filled from a listed task. *)
Definition startEdit (task : TaskJson) : TaskInput :=
  {| form_title := or_empty (json_title task);
     form_description := or_empty (json_description task);
     form_due_date := or_empty (json_due_date task);
     form_location := or_empty (json_location task);
     tagsStr := join (map name (tags task)) |}.

(** [handleUpdate]: the PUT body built from the edit form. *)
Definition handleUpdate (editForm : TaskInput) (currentStatus : jsval) : Body :=
  {| body_title := JStr (form_title editForm);
     body_description := JStr (form_description editForm);
     body_status := currentStatus;
     body_due_date := JStr (form_due_date editForm);
     body_location := JStr (form_location editForm);
     body_tags := TagsArray (parseTags (tagsStr editForm)) |}.

(** [task.status === 'completed' ? 'pending' : 'completed'] *)
Definition newStatus (st : jsval) : string :=
  match st with
  | JStr s => if String.eqb s "completed" then "pending" else "completed"
  | _ => "completed"
  end.

(** [toggleStatus]: the PUT body, the listed task sent back with its
    status flipped. *)
Definition toggleStatus (task : TaskJson) : Body :=
  {| body_title := json_title task;
     body_description := json_description task;
     body_status := JStr (newStatus (json_status task));
     body_due_date := json_due_date task;
     body_location := json_location task;
     body_tags := TagsArray (map name (tags task)) |}.

(** A tag name as [parseTags] yields them: not empty, no comma, no
    white space at either end. *)
Fixpoint no_comma (s : string) : bool :=
  match s with
  | EmptyString => true
  | String c s' => negb (Ascii.eqb c ",") && no_comma s'
  end.

(** The text begins with a white-space character. *)
Definition starts_with_space (s : string) : bool :=
  match s with
  | EmptyString => false
  | String a s1 =>
      space1 a
      || match s1 with
         | EmptyString => false
         | String b s2 =>
             space2 a b
             || match s2 with
                | EmptyString => false
                | String c _ => space3 a b c
                end
         end
  end.

(** The text ends with a white-space character: what is left of it from
    some byte on is one. *)
Fixpoint ends_with_space (s : string) : bool :=
  match s with
  | EmptyString => false
  | String _ s' => white_space s || ends_with_space s'
  end.

(** Texts written one behind the other. *)
Fixpoint flatten (l : list string) : string :=
  match l with
  | [] => EmptyString
  | x :: l' => String.append x (flatten l')
  end.

Definition clean (s : string) : Prop :=
  s <> "" /\ no_comma s = true
  /\ starts_with_space s = false /\ ends_with_space s = false.

(** The names a request's [tags] field asks for: none unless it is an
    array. *)
Definition tag_list (t : tagsval) : list string :=
  match t with
  | TagsArray names => names
  | _ => []
  end.

(** The task a command addresses, if it addresses one. *)
Definition target (c : Command) : option nat :=
  match c with
  | Create _ => None
  | Update key _ => Some key
  | Delete key => Some key
  end.

(** The task listed for "Buy milk" in the scenario. *)
Definition listed_buy_milk : TaskJson :=
  {| json_id := 1;
     json_title := JStr "Buy milk";
     json_due_date := JNull;
     json_description := JNull;
     json_location := JNull;
     json_status := JStr "pending";
     tags := [ {| name := "shopping" |}; {| name := "errand" |} ] |}.

(** The same task as listed under the tag filter "errand". *)
Definition listed_errand : TaskJson :=
  {| json_id := 1;
     json_title := JStr "Buy milk";
     json_due_date := JNull;
     json_description := JNull;
     json_location := JNull;
     json_status := JStr "pending";
     tags := [ {| name := "errand" |} ] |}.

(** The instance [findByPk] returns for "Buy milk". *)
Definition buy_milk_instance : TaskInstance :=
  instance_of_row
    {| id := 1; title := "Buy milk"; description := None; due_date := None;
       location := None; status := Some "pending" |}.

(** * Proofs *)

(** ** Ordering *)

Section OrderByFacts.
Context {A : Type} (key : A -> option string).

Let le (x y : A) : Prop := Sqlite.asc_leb (key x) (key y) = true.

Lemma asc_leb_total (a b : option string) :
  Sqlite.asc_leb a b = true \/ Sqlite.asc_leb b a = true.
Proof.
  destruct a as [x|], b as [y|]; simpl; auto using String.leb_total.
Qed.

Lemma insert_row_In (x y : A) (l : list A) :
  In y (Sqlite.insert_row key x l) <-> y = x \/ In y l.
Proof.
  induction l as [|z l IH]; simpl.
  - intuition congruence.
  - destruct (Sqlite.asc_leb (key z) (key x)); simpl; rewrite ?IH;
      intuition congruence.
Qed.

Lemma insert_row_HdRel (a x : A) (l : list A) :
  le a x -> HdRel le a l -> HdRel le a (Sqlite.insert_row key x l).
Proof.
  intros Hax Hl. destruct l as [|z l]; simpl.
  - now constructor.
  - destruct (Sqlite.asc_leb (key z) (key x)); constructor; auto.
    now inversion Hl.
Qed.

Lemma insert_row_Sorted (x : A) (l : list A) :
  Sorted le l -> Sorted le (Sqlite.insert_row key x l).
Proof.
  induction l as [|z l IH]; simpl; intros Hs.
  - repeat constructor.
  - inversion Hs as [|? ? Hl Hhd]; subst.
    destruct (Sqlite.asc_leb (key z) (key x)) eqn:E.
    + constructor; [now apply IH|].
      apply insert_row_HdRel; assumption.
    + constructor; [assumption|]. constructor.
      destruct (asc_leb_total (key z) (key x)); [congruence|assumption].
Qed.

Lemma fold_insert_In (l acc : list A) (y : A) :
  In y (fold_left (fun acc x => Sqlite.insert_row key x acc) l acc)
  <-> In y l \/ In y acc.
Proof.
  revert acc. induction l as [|x l IH]; simpl; intros acc.
  - intuition.
  - rewrite IH, insert_row_In. intuition congruence.
Qed.

Lemma fold_insert_Sorted (l acc : list A) :
  Sorted le acc ->
  Sorted le (fold_left (fun acc x => Sqlite.insert_row key x acc) l acc).
Proof.
  revert acc. induction l as [|x l IH]; simpl; intros acc Hs; auto.
  apply IH, insert_row_Sorted, Hs.
Qed.

Lemma order_by_In (l : list A) (y : A) :
  In y (Sqlite.order_by key l) <-> In y l.
Proof.
  unfold Sqlite.order_by. rewrite fold_insert_In. simpl. intuition.
Qed.

Lemma order_by_Sorted (l : list A) : Sorted le (Sqlite.order_by key l).
Proof. apply fold_insert_Sorted. constructor. Qed.

End OrderByFacts.

(** Bytewise comparison of text is transitive, so [ORDER BY] is a total
    preorder with NULL least. *)
Lemma string_compare_trans (a b c : string) :
  String.compare a b <> Gt -> String.compare b c <> Gt ->
  String.compare a c <> Gt.
Proof.
  revert b c. induction a as [|x a IH]; intros [|y b] [|z c]; simpl;
    try congruence.
  unfold Ascii.compare.
  destruct (N.compare_spec (N_of_ascii x) (N_of_ascii y)) as [Exy|Lxy|Gxy];
    destruct (N.compare_spec (N_of_ascii y) (N_of_ascii z)) as [Eyz|Lyz|Gyz];
    try congruence; intros Hab Hbc.
  - rewrite Exy, Eyz, N.compare_refl. now apply IH with b.
  - rewrite Exy. now apply N.compare_lt_iff in Lyz as ->.
  - rewrite <- Eyz. now apply N.compare_lt_iff in Lxy as ->.
  - assert (H : (N_of_ascii x < N_of_ascii z)%N) by now apply N.lt_trans with (N_of_ascii y).
    now apply N.compare_lt_iff in H as ->.
Qed.

Lemma asc_leb_trans (a b c : option string) :
  Sqlite.asc_leb a b = true -> Sqlite.asc_leb b c = true ->
  Sqlite.asc_leb a c = true.
Proof.
  destruct a as [x|], b as [y|], c as [z|]; simpl; try congruence.
  unfold String.leb. intros Hxy Hyz.
  assert (H : String.compare x z <> Gt).
  { apply string_compare_trans with y.
    - destruct (String.compare x y); congruence.
    - destruct (String.compare y z); congruence. }
  destruct (String.compare x z); congruence.
Qed.

Lemma due_le_trans (a b c : TaskJson) : due_le a b -> due_le b c -> due_le a c.
Proof. unfold due_le. apply asc_leb_trans. Qed.

(** On ['YYYY-MM-DD'] text, bytewise order is calendar order. *)

Lemma digit_compare (a b : nat) :
  a < 10 -> b < 10 -> Ascii.compare (digit a) (digit b) = Nat.compare a b.
Proof.
  intros Ha Hb. unfold Ascii.compare, digit.
  rewrite <- (N2Nat.id (N_of_ascii (ascii_of_nat (48 + a)))).
  rewrite <- (N2Nat.id (N_of_ascii (ascii_of_nat (48 + b)))).
  change (N.to_nat (N_of_ascii ?x)) with (nat_of_ascii x).
  rewrite !nat_ascii_embedding by lia.
  rewrite <- Nat2N.inj_compare.
  destruct (Nat.compare_spec a b), (Nat.compare_spec (48 + a) (48 + b));
    try reflexivity; lia.
Qed.

Lemma compare_cons (c c' : ascii) (s s' : string) :
  String.compare (String c s) (String c' s')
  = match Ascii.compare c c' with Eq => String.compare s s' | o => o end.
Proof. reflexivity. Qed.

Lemma two_digits_compare (n n' : nat) (s s' : string) :
  n < 100 -> n' < 100 ->
  String.compare (String.append (two_digits n) s)
                 (String.append (two_digits n') s')
  = match Nat.compare n n' with Eq => String.compare s s' | o => o end.
Proof.
  intros Hn Hn'. unfold two_digits. cbn [String.append].
  rewrite !compare_cons, !digit_compare.
  - pose proof (Nat.div_mod_eq n 10); pose proof (Nat.div_mod_eq n' 10).
    pose proof (Nat.mod_upper_bound n 10);
      pose proof (Nat.mod_upper_bound n' 10).
    destruct (Nat.compare_spec (n / 10) (n' / 10));
      destruct (Nat.compare_spec (n mod 10) (n' mod 10));
      destruct (Nat.compare_spec n n'); try reflexivity; exfalso; lia.
  - apply Nat.mod_upper_bound; lia.
  - apply Nat.mod_upper_bound; lia.
  - apply Nat.Div0.div_lt_upper_bound; lia.
  - apply Nat.Div0.div_lt_upper_bound; lia.
Qed.

Lemma four_digits_compare (n n' : nat) (s s' : string) :
  n < 100 * 100 -> n' < 100 * 100 ->
  String.compare (String.append (four_digits n) s)
                 (String.append (four_digits n') s')
  = match Nat.compare n n' with Eq => String.compare s s' | o => o end.
Proof.
  intros Hn Hn'. unfold four_digits.
  assert (Happ : forall a b c,
             String.append (String.append (two_digits a) (two_digits b)) c
             = String.append (two_digits a) (String.append (two_digits b) c))
    by reflexivity.
  rewrite !Happ, two_digits_compare, two_digits_compare.
  - pose proof (Nat.div_mod_eq n 100); pose proof (Nat.div_mod_eq n' 100).
    pose proof (Nat.mod_upper_bound n 100);
      pose proof (Nat.mod_upper_bound n' 100).
    destruct (Nat.compare_spec (n / 100) (n' / 100));
      destruct (Nat.compare_spec (n mod 100) (n' mod 100));
      destruct (Nat.compare_spec n n'); try reflexivity; exfalso; lia.
  - apply Nat.mod_upper_bound; lia.
  - apply Nat.mod_upper_bound; lia.
  - apply Nat.Div0.div_lt_upper_bound; lia.
  - apply Nat.Div0.div_lt_upper_bound; lia.
Qed.

Lemma iso_date_leb (y m d y' m' d' : nat) :
  y < 100 * 100 -> m < 100 -> d < 100 ->
  y' < 100 * 100 -> m' < 100 -> d' < 100 ->
  String.leb (iso_date y m d) (iso_date y' m' d') = true
  <-> date_le y m d y' m' d'.
Proof.
  intros Hy Hm Hd Hy' Hm' Hd'. unfold String.leb, iso_date, date_le.
  rewrite four_digits_compare, compare_cons by assumption.
  change (Ascii.compare "-" "-") with Eq. cbv iota.
  rewrite two_digits_compare, compare_cons by assumption.
  change (Ascii.compare "-" "-") with Eq. cbv iota.
  change (String.compare (two_digits d) (two_digits d'))
    with (String.compare (String.append (two_digits d) "")
                         (String.append (two_digits d') "")).
  rewrite two_digits_compare by assumption.
  change (String.compare "" "") with Eq.
  destruct (Nat.compare_spec y y'); destruct (Nat.compare_spec m m');
    destruct (Nat.compare_spec d d'); split; intros Hle;
    try discriminate; try reflexivity; lia.
Qed.

(** ** Due dates as [DATEONLY] writes them *)

Lemma format_idem (s : string) :
  Moment.format (Moment.format s) = Moment.format s.
Proof.
  unfold Moment.format at 2 3. destruct (Moment.is_valid s) eqn:E.
  - unfold Moment.format. now rewrite E.
  - reflexivity.
Qed.

Lemma to_date_column_sanitize (v : jsval) :
  to_date_column (DATEONLY.sanitize v) = to_date_column v.
Proof.
  destruct v as [| |s]; try reflexivity. unfold DATEONLY.sanitize.
  destruct (String.eqb s ""); [reflexivity|].
  unfold to_date_column, DATEONLY.stringify. simpl. now rewrite format_idem.
Qed.

Lemma write_date_sanitize (v : jsval) (old : option string) :
  write_date (DATEONLY.sanitize v) old = write_date v old.
Proof.
  destruct v as [| |s]; try reflexivity. unfold DATEONLY.sanitize.
  destruct (String.eqb s ""); [reflexivity|].
  unfold write_date, DATEONLY.stringify. now rewrite format_idem.
Qed.

(** The row an UPDATE writes is the same for the values as given and as
    [set] keeps them. *)
Lemma update_row_set_values (v : Values) (r : TaskRow) :
  update_row (set_values v) r = update_row v r.
Proof.
  unfold update_row, set_values. simpl. now rewrite write_date_sanitize.
Qed.

Lemma digit_value_digit (k : nat) :
  k < 10 -> Moment.digit_value (digit k) = Some k.
Proof.
  intros Hk. unfold Moment.digit_value, digit.
  rewrite nat_ascii_embedding by lia.
  replace (Nat.leb 48 (48 + k)) with true by (symmetry; apply Nat.leb_le; lia).
  replace (Nat.leb (48 + k) 57) with true by (symmetry; apply Nat.leb_le; lia).
  simpl. f_equal. lia.
Qed.

Lemma number2_two_digits (n : nat) :
  n < 100 ->
  Moment.number2 (digit (n / 10)) (digit (n mod 10)) = Some n.
Proof.
  intros Hn. unfold Moment.number2.
  rewrite !digit_value_digit.
  - f_equal. symmetry. apply Nat.div_mod_eq.
  - apply Nat.mod_upper_bound. lia.
  - apply Nat.Div0.div_lt_upper_bound. lia.
Qed.

Lemma parse_iso_date (y m d : nat) :
  y < 100 * 100 -> m < 100 -> d < 100 ->
  Moment.parse (iso_date y m d) = Some (y, m, d).
Proof.
  intros Hy Hm Hd. unfold iso_date, four_digits, two_digits.
  cbn [String.append]. unfold Moment.parse.
  change (Ascii.eqb "-" "-") with true. cbn [andb].
  rewrite !number2_two_digits; try assumption.
  - now rewrite <- (Nat.div_mod_eq y 100).
  - apply Nat.mod_upper_bound. lia.
  - apply Nat.Div0.div_lt_upper_bound. lia.
Qed.

Lemma calendar_date_bounds (y m d : nat) :
  Moment.calendar_date y m d = true -> m < 100 /\ d < 100.
Proof.
  unfold Moment.calendar_date. intros H.
  apply andb_true_iff in H as [H Hd]. apply andb_true_iff in H as [H _].
  apply andb_true_iff in H as [_ Hm]. apply Nat.leb_le in Hm, Hd.
  assert (Hdays : Moment.days_in_month y m <= 31).
  { unfold Moment.days_in_month.
    do 13 (destruct m as [|m]; [try (destruct (Moment.is_leap_year y)); lia|]).
    lia. }
  lia.
Qed.

(** A calendar date written [YYYY-MM-DD] is stored as it is written. *)
Lemma format_iso_date (y m d : nat) :
  y < 100 * 100 -> Moment.calendar_date y m d = true ->
  Moment.format (iso_date y m d) = iso_date y m d.
Proof.
  intros Hy Hc. destruct (calendar_date_bounds y m d Hc) as [Hm Hd].
  unfold Moment.format, Moment.is_valid.
  now rewrite parse_iso_date, Hc by assumption.
Qed.

(** ** Running a query *)

Lemma each_loaded (l : list (TaskRow * list TagRow)) (w : World) :
  each select_fields (map loaded l) w = (inr (map json_of l), w).
Proof.
  induction l as [|rt l IH]; simpl; [reflexivity|].
  unfold bind at 1. unfold select_fields at 1, bind at 1. simpl.
  unfold bind at 1. rewrite IH. reflexivity.
Qed.

Lemma GetTasks_run (q tag : option string) (w : World) :
  GetTasks q tag w =
  (inr (map json_of (select_rows (whereClause q) (includeClause tag) (store w))),
   {| store := store w; round_trips := S (round_trips w) |}).
Proof.
  unfold GetTasks, bind, resolve, Task_findAll, round_trip. simpl.
  apply each_loaded.
Qed.

Lemma answer_rows (q tag : option string) (st : Store) :
  answer q tag st =
  map json_of (select_rows (whereClause q) (includeClause tag) st).
Proof. unfold answer. rewrite GetTasks_run. reflexivity. Qed.

Lemma select_rows_In (w : WhereClause) (inc : IncludeTag) (st : Store)
      (rt : TaskRow * list TagRow) :
  In rt (select_rows w inc st) <->
  In (fst rt) (Tasks st) /\ where_holds w (fst rt) = true
  /\ snd rt = included_tags inc st (fst rt)
  /\ join_keeps inc (snd rt) = true.
Proof.
  unfold select_rows. rewrite order_by_In, filter_In, in_map_iff. split.
  - intros [[r [<- Hr]] Hk]. apply filter_In in Hr. simpl in *. tauto.
  - intros (Hin & Hw & Ht & Hk). split; [|assumption].
    exists (fst rt). split.
    + destruct rt; simpl in *; congruence.
    + apply filter_In. tauto.
Qed.

Lemma ids_answer (q tag : option string) (st : Store) (k : nat) :
  In k (ids (answer q tag st)) <->
  exists r, In r (Tasks st) /\ id r = k
            /\ where_holds (whereClause q) r = true
            /\ join_keeps (includeClause tag)
                          (included_tags (includeClause tag) st r) = true.
Proof.
  unfold ids. rewrite answer_rows, map_map. simpl. rewrite in_map_iff. split.
  - intros [rt [<- Hrt]]. apply select_rows_In in Hrt.
    destruct Hrt as (Hin & Hw & Ht & Hk). exists (fst rt).
    rewrite <- Ht. tauto.
  - intros (r & Hin & <- & Hw & Hk).
    exists (r, included_tags (includeClause tag) st r). split; [reflexivity|].
    apply select_rows_In. simpl. tauto.
Qed.

(** ** Pattern matching *)

Lemma like_star (p s : string) :
  Sqlite.like (String "%" p) s =
  Sqlite.like p s
  || match s with
     | EmptyString => false
     | String _ s' => Sqlite.like (String "%" p) s'
     end.
Proof. destruct s; reflexivity. Qed.

Lemma like_char (c : ascii) (p s : string) :
  Ascii.eqb c "%" = false -> Ascii.eqb c "_" = false ->
  Sqlite.like (String c p) s =
  match s with
  | EmptyString => false
  | String d s' => Sqlite.char_eq_nocase c d && Sqlite.like p s'
  end.
Proof. intros H1 H2. simpl. rewrite H1, H2. reflexivity. Qed.

Lemma like_percent (s : string) : Sqlite.like "%" s = true.
Proof.
  induction s as [|c s IH]; [reflexivity|].
  rewrite like_star, IH. apply orb_true_r.
Qed.

(** Without wildcards in [q], the pattern [q%] asks for a prefix. *)
Lemma like_prefix (q s : string) :
  no_wildcard q = true ->
  Sqlite.like (String.append q "%") s = prefix_nocase q s.
Proof.
  revert s. induction q as [|c q IH]; intros s Hq.
  - apply like_percent.
  - simpl in Hq. apply andb_true_iff in Hq as [Hc Hq].
    apply andb_true_iff in Hc as [Hp Hu].
    apply negb_true_iff in Hp, Hu.
    change (String.append (String c q) "%") with (String c (String.append q "%")).
    rewrite like_char by assumption.
    destruct s as [|d s]; [reflexivity|]. simpl. now rewrite IH.
Qed.

(** Without wildcards in [q], the pattern [%q%] asks for a substring up
    to ASCII case. *)
Lemma like_pattern_contains (q s : string) :
  no_wildcard q = true ->
  Sqlite.like (like_pattern q) s = contains_nocase q s.
Proof.
  intros Hq. unfold like_pattern.
  change (String.append "%" (String.append q "%"))
    with (String "%" (String.append q "%")).
  induction s as [|d s IH].
  - rewrite like_star, like_prefix by assumption. reflexivity.
  - rewrite like_star, like_prefix, IH by assumption. reflexivity.
Qed.

Lemma char_eq_nocase_iff (a b : ascii) :
  Sqlite.char_eq_nocase a b = true <-> Sqlite.to_lower a = Sqlite.to_lower b.
Proof. apply Ascii.eqb_eq. Qed.

Lemma prefix_nocase_iff (q s : string) :
  prefix_nocase q s = true <->
  exists mid behind, s = String.append mid behind /\ lower mid = lower q.
Proof.
  revert s. induction q as [|a q IH]; intros s; simpl.
  - split; [|reflexivity]. intros _. now exists EmptyString, s.
  - destruct s as [|b s].
    + split; [discriminate|].
      intros (mid & behind & Hs & Hl). destruct mid; simpl in *; discriminate.
    + rewrite andb_true_iff, char_eq_nocase_iff, IH. split.
      * intros (Hab & mid & behind & -> & Hl).
        exists (String b mid), behind. simpl. split; congruence.
      * intros (mid & behind & Hs & Hl). destruct mid as [|m mid];
          simpl in *; [discriminate|].
        inversion Hs; inversion Hl; subst. split; [congruence|].
        now exists mid, behind.
Qed.

(** [contains_nocase] decides the specification's match. *)
Lemma contains_nocase_iff (q s : string) :
  contains_nocase q s = true <-> occurs_nocase q s.
Proof.
  unfold occurs_nocase. induction s as [|b s IH]; simpl.
  - rewrite orb_false_r, prefix_nocase_iff. split.
    + intros (mid & behind & Hs & Hl). now exists EmptyString, mid, behind.
    + intros (before & mid & behind & Hs & Hl).
      destruct before; simpl in Hs; [|discriminate].
      now exists mid, behind.
  - rewrite orb_true_iff, prefix_nocase_iff, IH. split.
    + intros [(mid & behind & Hs & Hl)|(before & mid & behind & Hs & Hl)].
      * now exists EmptyString, mid, behind.
      * exists (String b before), mid, behind. simpl. split; congruence.
    + intros (before & mid & behind & Hs & Hl).
      destruct before as [|c before]; simpl in Hs.
      * left. now exists mid, behind.
      * right. inversion Hs; subst. now exists before, mid, behind.
Qed.

(** ** The join and the two filters *)

Lemma insert_key_In (k x : nat) (l : list nat) :
  In x (Sqlite.insert_key k l) <-> x = k \/ In x l.
Proof.
  induction l as [|y l IH]; simpl.
  - intuition congruence.
  - destruct (Nat.leb k y); simpl; rewrite ?IH; intuition congruence.
Qed.

Lemma index_order_In (x : nat) (l : list nat) :
  In x (Sqlite.index_order l) <-> In x l.
Proof.
  induction l as [|y l IH]; simpl; [tauto|].
  rewrite insert_key_In, IH. intuition congruence.
Qed.

(** The keys of the tags a task is associated with. *)
Lemma associations_In (st : Store) (key i : nat) :
  In i (map snd (filter (fun p => fst p =? key) (TaskTags st)))
  <-> In (key, i) (TaskTags st).
Proof.
  rewrite in_map_iff. split.
  - intros [[t i'] [Hi Hp]]. simpl in Hi. subst i'.
    apply filter_In in Hp as [Hp Ht]. simpl in Ht.
    apply Nat.eqb_eq in Ht. now subst t.
  - intros Hp. exists (key, i). split; [reflexivity|].
    apply filter_In. split; [assumption|]. apply Nat.eqb_refl.
Qed.

Lemma joined_tags_In (st : Store) (key : nat) (g : TagRow) :
  In g (joined_tags st key) <->
  In (key, tag_id g) (TaskTags st) /\ In g (Tags st).
Proof.
  unfold joined_tags. rewrite in_flat_map. split.
  - intros [i [Hi Hg]]. apply index_order_In, associations_In in Hi.
    apply filter_In in Hg as [Hg Hid]. apply Nat.eqb_eq in Hid.
    rewrite Hid. tauto.
  - intros [Hp Hg]. exists (tag_id g). split.
    + now apply index_order_In, associations_In.
    + apply filter_In. split; [assumption|]. apply Nat.eqb_refl.
Qed.

Lemma includeClause_filter (x : string) :
  x <> "" -> includeClause (Some x) = {| include_where := Some x |}.
Proof.
  intros Hx. unfold includeClause, truthy.
  apply String.eqb_neq in Hx. now rewrite Hx.
Qed.

(** With a tag filter, the join keeps a task exactly when the task has a
    tag of that name. *)
Lemma join_keeps_has_tag (st : Store) (x : string) (r : TaskRow) :
  join_keeps {| include_where := Some x |}
             (included_tags {| include_where := Some x |} st r) = true
  <-> has_tag st (id r) x.
Proof.
  unfold join_keeps, included_tags, has_tag. simpl.
  set (l := filter _ _).
  assert (Hl : forall g, In g l <->
             (In (id r, tag_id g) (TaskTags st) /\ In g (Tags st))
             /\ tag_name g = x).
  { intros g. unfold l. rewrite filter_In, joined_tags_In, String.eqb_eq.
    tauto. }
  split.
  - destruct l as [|g l']; [discriminate|]. intros _.
    exists g. specialize (Hl g). simpl in Hl. tauto.
  - intros (g & Hp & Hg & Hn). destruct l as [|g' l']; [|reflexivity].
    specialize (Hl g). simpl in Hl. tauto.
Qed.

(** Without wildcards in [q], the [where] clause is the specification's
    free-text match. *)
Lemma where_holds_matches_text (q : string) (r : TaskRow) :
  no_wildcard q = true ->
  where_holds (whereClause (Some q)) r = matches_text q r.
Proof.
  intros Hq. unfold whereClause, truthy, matches_text.
  destruct (String.eqb_spec q "") as [->|Hne].
  - simpl. now destruct (title r).
  - cbn -[Sqlite.like like_pattern contains_nocase].
    rewrite (like_pattern_contains q (title r) Hq), orb_false_r, orb_assoc.
    destruct (description r), (location r);
      cbn -[Sqlite.like like_pattern contains_nocase];
      rewrite ?like_pattern_contains by assumption; reflexivity.
Qed.

(** For a term without wildcards, the query returns the tasks the
    specification's free-text match accepts, and no others. *)
Lemma text_filter_without_wildcards (st : Store) (q : string) (k : nat) :
  no_wildcard q = true ->
  (In k (ids (answer (Some q) None st)) <->
   exists r, In r (Tasks st) /\ id r = k /\ matches_text q r = true).
Proof.
  intros Hq. rewrite ids_answer. split.
  - intros (r & Hin & Hk & Hw & _). exists r.
    rewrite <- where_holds_matches_text by assumption. tauto.
  - intros (r & Hin & Hk & Hm). exists r.
    rewrite where_holds_matches_text by assumption. tauto.
Qed.

(** With a tag filter [x], every tag listed with a returned task is
    named [x]. *)
Lemma tag_filter_lists_matching_tags (st : Store) (q : option string)
      (x : string) (j : TaskJson) (o : TagObj) :
  x <> "" -> In j (answer q (Some x) st) -> In o (tags j) -> name o = x.
Proof.
  intros Hx Hj Ho. rewrite answer_rows, includeClause_filter in Hj by assumption.
  apply in_map_iff in Hj as [rt [<- Hrt]].
  apply select_rows_In in Hrt as (_ & _ & Ht & _).
  simpl in Ho. rewrite Ht in Ho. unfold included_tags in Ho. simpl in Ho.
  apply in_map_iff in Ho as [g [<- Hg]].
  apply filter_In in Hg as [_ Hg]. now apply String.eqb_eq in Hg.
Qed.

(** Read without an eager load, the tags would cost one call per task. *)
Lemma lazy_tags_cost (rows : list TaskRow) (w : World) :
  snd (each select_fields (map instance_of_row rows) w) =
  {| store := store w; round_trips := round_trips w + List.length rows |}.
Proof.
  revert w. induction rows as [|r rows IH]; intros [st n]; simpl.
  - now rewrite Nat.add_0_r.
  - unfold bind at 1. unfold select_fields at 1, bind at 1. simpl.
    unfold bind at 1.
    specialize (IH {| store := st; round_trips := S n |}).
    destruct (each select_fields (map instance_of_row rows) _) as [[e|l] w'];
      simpl in *; rewrite IH; f_equal; lia.
Qed.

(** ** Running the handlers *)

Lemma Tag_findOrCreate_run (n : string) (w : World) :
  Tag_findOrCreate n w =
  (inr (found_or_created n (store w),
        match find (fun g => String.eqb (tag_name g) n) (Tags (store w)) with
        | Some _ => false
        | None => true
        end),
   {| store := with_tag n (store w); round_trips := S (round_trips w) |}).
Proof.
  unfold Tag_findOrCreate, round_trip, with_tag, found_or_created.
  destruct (find _ _); reflexivity.
Qed.

Lemma add_tags_run (t : TaskInstance) (names : list string) (w : World) :
  add_tags t names w =
  (inr tt, {| store := tagged (pk t) names (store w);
              round_trips := round_trips w + 2 * List.length names |}).
Proof.
  unfold add_tags. revert w. induction names as [|n names IH]; intros [st c].
  - simpl. unfold ret. now rewrite Nat.add_0_r.
  - cbn [for_of]. unfold bind at 1. unfold bind at 1.
    rewrite Tag_findOrCreate_run. cbn [fst store round_trips].
    unfold Task_addTag at 1, round_trip at 1. cbn [fst snd store round_trips].
    rewrite IH. cbn [store round_trips tagged]. unfold associate.
    f_equal. f_equal. cbn [List.length]. lia.
Qed.

Lemma untagged_setTags (t : TaskInstance) (w : World) :
  Task_setTags t [] w =
  (inr tt, {| store := untagged (pk t) (store w); round_trips := S (round_trips w) |}).
Proof.
  unfold Task_setTags, round_trip, untagged. simpl. rewrite app_nil_r.
  rewrite (filter_ext (fun p => negb (fst p =? pk t) || false)
                      (fun p => negb (fst p =? pk t)))
    by (intros p; apply orb_false_r).
  reflexivity.
Qed.

Lemma task_row_key (st : Store) (key : nat) (r : TaskRow) :
  task_row st key = Some r -> id r = key /\ In r (Tasks st).
Proof.
  unfold task_row. intros H. apply find_some in H as [Hin Hid].
  now apply Nat.eqb_eq in Hid.
Qed.

Lemma task_row_none (st : Store) (key : nat) :
  task_row st key = None <-> ~ In key (map id (Tasks st)).
Proof.
  unfold task_row. split.
  - intros H Hin. apply in_map_iff in Hin as [r [Hid Hr]].
    apply (find_none _ _ H) in Hr. apply Nat.eqb_neq in Hr. congruence.
  - intros H. destruct (find _ _) as [r|] eqn:E; [|reflexivity].
    apply find_some in E as [Hin Hid]. apply Nat.eqb_eq in Hid.
    exfalso. apply H. apply in_map_iff. now exists r.
Qed.

(** What [post_tasks] answers and leaves. *)
Lemma post_tasks_run (body : Body) (st : Store) :
  match body_title body with
  | JStr t =>
      let r := created_row body t st in
      response_of (post_tasks body) st =
        json_task {| pk := id r;
                     dataValues := {| v_title := JStr t;
                                      v_description := body_description body;
                                      v_status := JStr "pending";
                                      v_due_date :=
                                        DATEONLY.sanitize (body_due_date body);
                                      v_location := body_location body |};
                     inst_Tags := None |}
      /\ after (post_tasks body) st
         = with_tags (body_tags body) (id r) (inserted r st)
  | _ =>
      response_of (post_tasks body) st = status_error 500 "Create failed"
      /\ after (post_tasks body) st = st
  end.
Proof.
  unfold response_of, after, post_tasks, try_catch, bind, Task_create.
  destruct (body_title body) as [| |t];
    cbn -[add_tags to_date_column DATEONLY.sanitize]; try (split; reflexivity).
  rewrite to_date_column_sanitize.
  destruct (body_tags body) as [| |names];
    cbn -[add_tags to_date_column DATEONLY.sanitize]; try (split; reflexivity).
  rewrite add_tags_run. split; reflexivity.
Qed.

Lemma saved_set_values (key : nat) (v : Values) (st : Store) :
  saved key (set_values v) st = saved key v st.
Proof.
  unfold saved. f_equal. apply map_ext. intros r.
  now rewrite update_row_set_values.
Qed.

Lemma sanitize_date_kept (v : jsval) : date_kept v (DATEONLY.sanitize v).
Proof.
  destruct v as [| |s]; try reflexivity. simpl.
  destruct (String.eqb_spec s "") as [->|Hs].
  - split; [reflexivity|]. intros y m d _ _ E. now rewrite E.
  - split; [contradiction|]. intros y m d Hy Hc ->.
    now rewrite format_iso_date.
Qed.

Lemma set_values_answers (key : nat) (v : Values) :
  answers_task (json_task {| pk := key; dataValues := set_values v;
                             inst_Tags := None |})
               key v.
Proof.
  eexists. split; [reflexivity|]. do 6 (split; [reflexivity|]).
  apply sanitize_date_kept.
Qed.

(** What [put_tasks] answers and leaves. *)
Lemma put_tasks_run (key : nat) (body : Body) (st : Store) :
  match task_row st key with
  | None =>
      response_of (put_tasks key body) st = status_error 404 "Not found"
      /\ after (put_tasks key body) st = st
  | Some r =>
      match body_title body with
      | JStr _ =>
          response_of (put_tasks key body) st =
            json_task {| pk := key; dataValues := set_values (body_values body);
                         inst_Tags := None |}
          /\ after (put_tasks key body) st =
             match body_tags body with
             | TagsArray names =>
                 tagged key names (untagged key (saved key (body_values body) st))
             | _ => saved key (body_values body) st
             end
      | _ =>
          response_of (put_tasks key body) st = status_error 500 "Update failed"
          /\ after (put_tasks key body) st = st
      end
  end.
Proof.
  rewrite <- (saved_set_values key (body_values body) st).
  unfold response_of, after, put_tasks, try_catch, bind, Task_findByPk.
  cbn -[add_tags Task_setTags Task_save].
  fold (task_row st key).
  destruct (task_row st key) as [r|] eqn:Hr; cbn -[add_tags Task_setTags Task_save];
    [|split; reflexivity].
  apply task_row_key in Hr as [<- _].
  unfold Task_save. cbn -[add_tags Task_setTags]. fold (body_values body).
  destruct (body_title body) as [| |t]; cbn -[add_tags Task_setTags];
    try (split; reflexivity).
  destruct (body_tags body) as [| |names]; cbn -[add_tags Task_setTags];
    try (split; reflexivity).
  rewrite untagged_setTags. cbn -[add_tags].
  rewrite add_tags_run. split; reflexivity.
Qed.

(** What [delete_tasks] answers and leaves. *)
Lemma delete_tasks_run (key : nat) (st : Store) :
  response_of (delete_tasks key) st = json_message "Deleted"
  /\ after (delete_tasks key) st = destroyed key st.
Proof. split; reflexivity. Qed.

(** ** Keys and tags *)

Lemma next_rowid_above (seq : nat) (l : list nat) (k : nat) :
  In k l -> k < Sqlite.next_rowid seq l.
Proof.
  intros Hk. unfold Sqlite.next_rowid.
  assert (H : Forall (fun x => x <= list_max l) l) by now apply list_max_le.
  rewrite Forall_forall in H. specialize (H k Hk). lia.
Qed.

Lemma next_rowid_fresh (seq : nat) (l : list nat) :
  ~ In (Sqlite.next_rowid seq l) l.
Proof. intros H. apply (next_rowid_above seq) in H. lia. Qed.

Lemma next_rowid_seq (seq : nat) (l : list nat) :
  seq < Sqlite.next_rowid seq l.
Proof. unfold Sqlite.next_rowid. lia. Qed.

Lemma NoDup_map_eq {A B} (f : A -> B) (l : list A) (a b : A) :
  NoDup (map f l) -> In a l -> In b l -> f a = f b -> a = b.
Proof.
  induction l as [|x l IH]; simpl; [contradiction|].
  intros Hnd Ha Hb Hf. inversion Hnd as [|? ? Hx Hl]; subst.
  destruct Ha as [->|Ha], Hb as [->|Hb]; auto.
  - exfalso. apply Hx. rewrite Hf. now apply in_map.
  - exfalso. apply Hx. rewrite <- Hf. now apply in_map.
Qed.

Lemma NoDup_snoc {A} (l : list A) (x : A) :
  NoDup l -> ~ In x l -> NoDup (l ++ [x]).
Proof.
  induction l as [|y l IH]; simpl; intros Hl Hx.
  - constructor; [auto|constructor].
  - inversion Hl as [|? ? Hy Hl']; subst. constructor.
    + rewrite in_app_iff. simpl. intuition.
    + apply IH; [assumption|]. intuition.
Qed.

(** [findOrCreate] either finds the first tag of that name or appends a
    tag with a new key and a name no tag had. *)
Lemma with_tag_cases (n : string) (st : Store) :
  let g := found_or_created n st in
  tag_name g = n
  /\ ((with_tag n st = st /\ In g (Tags st))
      \/ (Tags (with_tag n st) = Tags st ++ [g]
          /\ tag_seq (with_tag n st) = tag_id g
          /\ tag_id g = Sqlite.next_rowid (tag_seq st) (map tag_id (Tags st))
          /\ ~ In n (map tag_name (Tags st)))).
Proof.
  unfold with_tag, found_or_created.
  destruct (find _ _) as [g|] eqn:E; simpl.
  - apply find_some in E as [Hin Hn]. apply String.eqb_eq in Hn. auto.
  - split; [reflexivity|]. right. do 3 (split; [reflexivity|]).
    intros Hin. apply in_map_iff in Hin as [h [Hn Hh]].
    apply (find_none _ _ E) in Hh. apply String.eqb_neq in Hh. congruence.
Qed.

Lemma with_tag_frame (n : string) (st : Store) :
  Tasks (with_tag n st) = Tasks st
  /\ TaskTags (with_tag n st) = TaskTags st
  /\ task_seq (with_tag n st) = task_seq st.
Proof. unfold with_tag. destruct (find _ _); auto. Qed.

Lemma found_or_created_In (n : string) (st : Store) :
  In (found_or_created n st) (Tags (with_tag n st)).
Proof.
  destruct (with_tag_cases n st) as [_ [[-> H]|[-> _]]]; [assumption|].
  apply in_or_app. right. now left.
Qed.

Lemma with_tag_incl (n : string) (st : Store) (g : TagRow) :
  In g (Tags st) -> In g (Tags (with_tag n st)).
Proof.
  destruct (with_tag_cases n st) as [_ [[-> _]|[-> _]]]; [auto|].
  intros H. apply in_or_app. now left.
Qed.

Lemma with_tag_new (n : string) (st : Store) (g : TagRow) :
  In g (Tags (with_tag n st)) ->
  In g (Tags st)
  \/ (g = found_or_created n st /\ ~ In (tag_id g) (map tag_id (Tags st))).
Proof.
  destruct (with_tag_cases n st) as [_ [[-> _]|(-> & _ & Hid & _)]]; [auto|].
  intros H. apply in_app_or in H as [H|[<-|[]]]; [auto|]. right.
  split; [reflexivity|]. rewrite Hid. apply next_rowid_fresh.
Qed.

Lemma with_tag_keys_unique (n : string) (st : Store) :
  NoDup (map tag_id (Tags st)) -> NoDup (map tag_id (Tags (with_tag n st))).
Proof.
  destruct (with_tag_cases n st) as [_ [[-> _]|(-> & _ & Hid & _)]]; [auto|].
  intros H. rewrite map_app. simpl. apply NoDup_snoc; [assumption|].
  rewrite Hid. apply next_rowid_fresh.
Qed.

Lemma associate_In (task tag : nat) (st : Store) (p : nat * nat) :
  In p (TaskTags (associate task tag st)) <->
  In p (TaskTags st) \/ p = (task, tag).
Proof.
  unfold associate. simpl.
  destruct (associated task tag (TaskTags st)) eqn:E.
  - split; [auto|]. intros [H| ->]; [assumption|].
    unfold associated in E. apply existsb_exists in E as [[a b] [Hin Hab]].
    simpl in Hab. apply andb_true_iff in Hab as [Ha Hb].
    apply Nat.eqb_eq in Ha, Hb. now subst.
  - rewrite in_app_iff. simpl. intuition.
Qed.

Lemma tagged_frame (task : nat) (names : list string) (st : Store) :
  Tasks (tagged task names st) = Tasks st
  /\ task_seq (tagged task names st) = task_seq st.
Proof.
  revert st. induction names as [|n names IH]; intros st; simpl; [auto|].
  destruct (IH (associate task (tag_id (found_or_created n st)) (with_tag n st)))
    as [-> ->].
  simpl. destruct (with_tag_frame n st) as (-> & _ & ->). auto.
Qed.

Lemma tagged_keys_unique (task : nat) (names : list string) (st : Store) :
  NoDup (map tag_id (Tags st)) ->
  NoDup (map tag_id (Tags (tagged task names st))).
Proof.
  revert st. induction names as [|n names IH]; intros st H; simpl; [auto|].
  apply IH. simpl. now apply with_tag_keys_unique.
Qed.

(** The loop over a [tags] array adds the listed names to the names a
    task is associated with, and nothing else. *)
Lemma tagged_names (task : nat) (names : list string) (st : Store) :
  NoDup (map tag_id (Tags st)) ->
  (forall i, In (task, i) (TaskTags st) -> In i (map tag_id (Tags st))) ->
  forall n, In n (tag_names (tagged task names st) task) <->
            In n (tag_names st task) \/ In n names.
Proof.
  revert st. induction names as [|x names IH]; intros st Hnd Hfk n; simpl.
  - tauto.
  - set (g := found_or_created x st).
    set (st1 := with_tag x st).
    set (st2 := associate task (tag_id g) st1).
    assert (Hnd1 : NoDup (map tag_id (Tags st1))) by now apply with_tag_keys_unique.
    assert (Hg : In g (Tags st1)) by apply found_or_created_In.
    assert (Hname : tag_name g = x) by apply (with_tag_cases x st).
    assert (Hjoin : forall h, In h (joined_tags st2 task) <->
                              In h (joined_tags st task) \/ h = g).
    { intros h. rewrite !joined_tags_In. unfold st2 at 1.
      rewrite associate_In. simpl.
      destruct (with_tag_frame x st) as (_ & Htt & _). fold st1 in Htt.
      rewrite Htt. split.
      - intros [[Hp|Hp] Hh].
        + left. split; [assumption|].
          apply with_tag_new in Hh as [Hh|[_ Hfresh]]; [assumption|].
          exfalso. apply Hfresh, Hfk, Hp.
        + right. inversion Hp as [Hid].
          now apply (NoDup_map_eq tag_id (Tags st1)).
      - intros [[Hp Hh]| ->].
        + split; [now left|]. now apply with_tag_incl.
        + split; [now right|assumption]. }
    rewrite IH.
    + unfold tag_names at 1 2. rewrite !in_map_iff. split.
      * intros [(h & Hn & Hh)|Hn]; [|tauto].
        apply Hjoin in Hh as [Hh| ->]; [left; now exists h|].
        right. left. congruence.
      * intros [(h & Hn & Hh)|[Hx|Hn]]; [| |tauto].
        -- left. exists h. split; [assumption|]. apply Hjoin. now left.
        -- left. exists g. split; [congruence|]. apply Hjoin. now right.
    + exact Hnd1.
    + intros i Hi. apply associate_In in Hi.
      destruct (with_tag_frame x st) as (_ & Htt & _). fold st1 in Htt.
      rewrite Htt in Hi. destruct Hi as [Hi|Hi].
      * apply Hfk in Hi. apply in_map_iff in Hi as [h [<- Hh]].
        apply in_map. now apply with_tag_incl.
      * inversion Hi. now apply in_map.
Qed.

(** ** What the handlers keep *)

Lemma saved_keys (key : nat) (v : Values) (st : Store) :
  map id (Tasks (saved key v st)) = map id (Tasks st).
Proof.
  unfold saved. simpl. rewrite map_map. apply map_ext.
  intros r. now destruct (id r =? key).
Qed.

Lemma saved_row (key : nat) (v : Values) (st : Store) (r : TaskRow) :
  task_row st key = Some r ->
  task_row (saved key v st) key = Some (update_row v r).
Proof.
  unfold task_row, saved. simpl.
  induction (Tasks st) as [|x l IH]; simpl; [discriminate|].
  destruct (id x =? key) eqn:E.
  - intros [= ->]. simpl. now rewrite E.
  - rewrite E. exact IH.
Qed.

(** Every writing handler leaves a store that is one of these. *)
Lemma after_put_tasks (key : nat) (body : Body) (st : Store) :
  after (put_tasks key body) st = st
  \/ after (put_tasks key body) st = saved key (body_values body) st
  \/ exists names,
       after (put_tasks key body) st
       = tagged key names (untagged key (saved key (body_values body) st)).
Proof.
  pose proof (put_tasks_run key body st) as H.
  destruct (task_row st key); [|now left].
  destruct (body_title body); try (now left).
  destruct (body_tags body) as [| |names]; destruct H as [_ ->];
    [right; now left|right; now left|right; right; now exists names].
Qed.

Lemma put_tasks_keys (key : nat) (body : Body) (st : Store) :
  map id (Tasks (after (put_tasks key body) st)) = map id (Tasks st)
  /\ task_seq (after (put_tasks key body) st) = task_seq st.
Proof.
  destruct (after_put_tasks key body st) as [->|[->|[names ->]]].
  - auto.
  - split; [apply saved_keys|reflexivity].
  - destruct (tagged_frame key names (untagged key (saved key (body_values body) st)))
      as [-> ->].
    split; [apply saved_keys|reflexivity].
Qed.

Lemma put_tasks_tag_keys_unique (key : nat) (body : Body) (st : Store) :
  NoDup (map tag_id (Tags st)) ->
  NoDup (map tag_id (Tags (after (put_tasks key body) st))).
Proof.
  intros H. destruct (after_put_tasks key body st) as [->|[->|[names ->]]];
    [assumption|assumption|].
  now apply tagged_keys_unique.
Qed.

Lemma with_tags_frame (tg : tagsval) (task : nat) (st : Store) :
  Tasks (with_tags tg task st) = Tasks st
  /\ task_seq (with_tags tg task st) = task_seq st.
Proof. destruct tg; simpl; auto using tagged_frame. Qed.

(** A key that names no task and is not above the sequence names no task
    after any command: new keys lie above the sequence. *)
Lemma issued_key_stays_absent (c : Command) (st : Store) (key : nat) :
  ~ In key (map id (Tasks st)) -> key <= task_seq st ->
  ~ In key (map id (Tasks (after (handler_of c) st)))
  /\ key <= task_seq (after (handler_of c) st).
Proof.
  intros Hout Hseq. destruct c as [body|k body|k]; cbn [handler_of].
  - pose proof (post_tasks_run body st) as H.
    destruct (body_title body) as [| |t]; try (destruct H as [_ ->]; now auto).
    cbv zeta in H. destruct H as [_ ->].
    destruct (with_tags_frame (body_tags body) (id (created_row body t st))
                              (inserted (created_row body t st) st)) as [-> ->].
    simpl. pose proof (next_rowid_seq (task_seq st) (map id (Tasks st))).
    split; [|lia]. rewrite map_app, in_app_iff. simpl. intros [Hin|[Hin|[]]]; [auto|lia].
  - destruct (put_tasks_keys k body st) as [-> ->]. auto.
  - destruct (delete_tasks_run k st) as [_ ->]. simpl. split; [|assumption].
    intros Hin. apply Hout. apply in_map_iff in Hin as [r [Hid Hr]].
    apply filter_In in Hr as [Hr _]. apply in_map_iff. now exists r.
Qed.

Lemma run_keeps_absent (cs : list Command) (st : Store) (key : nat) :
  ~ In key (map id (Tasks st)) -> key <= task_seq st ->
  ~ In key (map id (Tasks (run cs st))).
Proof.
  revert st. induction cs as [|c cs IH]; intros st Hout Hseq; simpl; [assumption|].
  destruct (issued_key_stays_absent c st key Hout Hseq). now apply IH.
Qed.

Lemma answer_keys (q tag : option string) (st : Store) (k : nat) :
  In k (ids (answer q tag st)) -> In k (map id (Tasks st)).
Proof.
  rewrite ids_answer. intros (r & Hin & <- & _). now apply in_map.
Qed.

Lemma destroyed_absent (key : nat) (st : Store) :
  ~ In key (map id (Tasks (destroyed key st))).
Proof.
  simpl. intros Hin. apply in_map_iff in Hin as [r [Hid Hr]].
  apply filter_In in Hr as [_ Hr]. apply negb_true_iff, Nat.eqb_neq in Hr.
  contradiction.
Qed.

(** ** The schema's constraints hold in every store the server reaches *)

Lemma associated_In (task tag : nat) (l : list (nat * nat)) :
  associated task tag l = true <-> In (task, tag) l.
Proof.
  unfold associated. rewrite existsb_exists. split.
  - intros [[a b] [Hin Hab]]. simpl in Hab.
    apply andb_true_iff in Hab as [Ha Hb]. apply Nat.eqb_eq in Ha, Hb.
    now subst.
  - intros Hin. exists (task, tag). simpl. now rewrite !Nat.eqb_refl.
Qed.

Lemma NoDup_map_filter {A B} (g : A -> B) (f : A -> bool) (l : list A) :
  NoDup (map g l) -> NoDup (map g (filter f l)).
Proof.
  induction l as [|x l IH]; simpl; intros H; [constructor|].
  inversion H as [|? ? Hx Hl]; subst.
  destruct (f x); simpl; [|now apply IH]. constructor; [|now apply IH].
  intros Hin. apply Hx. apply in_map_iff in Hin as [y [Hy Hin]].
  apply filter_In in Hin as [Hin _]. apply in_map_iff. now exists y.
Qed.

(** [NoDup] of a list written out. *)
Ltac distinct_literals := repeat constructor; simpl; intuition discriminate.

Lemma empty_store_consistent : consistent empty_store.
Proof. constructor; simpl; try constructor; contradiction. Qed.

Lemma init_store_consistent : consistent init_store.
Proof.
  constructor; simpl.
  - distinct_literals.
  - distinct_literals.
  - distinct_literals.
  - distinct_literals.
  - intros p H. repeat (destruct H as [<-|H]; [simpl; tauto|]). contradiction.
  - intros k H. repeat (destruct H as [<-|H]; [lia|]). contradiction.
  - intros k H. repeat (destruct H as [<-|H]; [lia|]). contradiction.
  - intros r d H.
    repeat (destruct H as [<-|H]; [intros [= <-]; reflexivity|]).
    contradiction.
Qed.

Lemma to_date_column_formatted (v : jsval) (d : string) :
  to_date_column v = Some d -> Moment.format d = d.
Proof.
  destruct v as [| |s]; try discriminate. intros [= <-]. apply format_idem.
Qed.

Lemma write_date_formatted (v : jsval) (old : option string) (d : string) :
  (forall d', old = Some d' -> Moment.format d' = d') ->
  write_date v old = Some d -> Moment.format d = d.
Proof.
  intros Hold. destruct v as [| |s]; simpl; [auto|discriminate|].
  intros [= <-]. apply format_idem.
Qed.

Lemma inserted_consistent (body : Body) (t : string) (st : Store) :
  consistent st -> consistent (inserted (created_row body t st) st).
Proof.
  intros [H1 H2 H3 H4 H5 H6 H7 H8]. constructor; simpl; try assumption.
  - rewrite map_app. simpl. apply NoDup_snoc; [assumption|].
    apply next_rowid_fresh.
  - intros p Hp. apply H5 in Hp as [Ha Hb]. split; [|assumption].
    rewrite map_app. apply in_or_app. now left.
  - intros k Hk. rewrite map_app in Hk. apply in_app_or in Hk as [Hk|[<-|[]]].
    + apply H6 in Hk.
      pose proof (next_rowid_seq (task_seq st) (map id (Tasks st))). lia.
    + apply le_n.
  - intros r d Hr. apply in_app_or in Hr as [Hr|[<-|[]]]; [now apply H8|].
    apply to_date_column_formatted.
Qed.

Lemma with_tag_consistent (n : string) (st : Store) :
  consistent st -> consistent (with_tag n st).
Proof.
  intros Hc. pose proof Hc as [H1 H2 H3 H4 H5 H6 H7 H8].
  destruct (with_tag_frame n st) as (HT & HTT & Hseq).
  destruct (with_tag_cases n st) as [Hname [[E _]|(HTags & Hs & Hid & Hnew)]];
    [now rewrite E|].
  constructor; rewrite ?HT, ?HTT, ?Hseq, ?HTags, ?Hs; try assumption.
  - rewrite map_app. simpl. apply NoDup_snoc; [assumption|].
    rewrite Hid. apply next_rowid_fresh.
  - rewrite map_app. simpl. apply NoDup_snoc; [assumption|].
    now rewrite Hname.
  - intros p Hp. apply H5 in Hp as [Ha Hb]. split; [assumption|].
    rewrite map_app. apply in_or_app. now left.
  - intros k Hk. rewrite map_app in Hk. apply in_app_or in Hk as [Hk|[<-|[]]].
    + apply H7 in Hk. rewrite Hid.
      pose proof (next_rowid_seq (tag_seq st) (map tag_id (Tags st))). lia.
    + apply le_n.
Qed.

Lemma associate_consistent (task tag : nat) (st : Store) :
  In task (map id (Tasks st)) -> In tag (map tag_id (Tags st)) ->
  consistent st -> consistent (associate task tag st).
Proof.
  intros Htask Htag [H1 H2 H3 H4 H5 H6 H7 H8].
  constructor; try assumption.
  - unfold associate. simpl.
    destruct (associated task tag (TaskTags st)) eqn:E; [assumption|].
    apply NoDup_snoc; [assumption|]. intros Hin.
    apply associated_In in Hin. congruence.
  - intros p Hp. apply associate_In in Hp as [Hp| ->]; [now apply H5|].
    simpl. auto.
Qed.

Lemma tagged_consistent (task : nat) (names : list string) (st : Store) :
  In task (map id (Tasks st)) ->
  consistent st -> consistent (tagged task names st).
Proof.
  revert st. induction names as [|n names IH]; intros st Htask Hc; simpl;
    [assumption|].
  destruct (with_tag_frame n st) as (HT & _ & _).
  apply IH.
  - simpl. now rewrite HT.
  - apply associate_consistent.
    + now rewrite HT.
    + apply in_map, found_or_created_In.
    + now apply with_tag_consistent.
Qed.

Lemma saved_consistent (key : nat) (v : Values) (st : Store) :
  consistent st -> consistent (saved key v st).
Proof.
  intros [H1 H2 H3 H4 H5 H6 H7 H8].
  constructor; rewrite ?saved_keys; try assumption.
  intros r d Hr. simpl in Hr. apply in_map_iff in Hr as [r0 [<- Hr0]].
  destruct (id r0 =? key); [|now apply H8].
  apply write_date_formatted. intros d'. now apply H8.
Qed.

Lemma untagged_consistent (key : nat) (st : Store) :
  consistent st -> consistent (untagged key st).
Proof.
  intros [H1 H2 H3 H4 H5 H6 H7 H8]. constructor; simpl; try assumption.
  - now apply NoDup_filter.
  - intros p Hp. apply filter_In in Hp as [Hp _]. now apply H5.
Qed.

Lemma destroyed_consistent (key : nat) (st : Store) :
  consistent st -> consistent (destroyed key st).
Proof.
  intros [H1 H2 H3 H4 H5 H6 H7 H8]. constructor; simpl; try assumption.
  - now apply NoDup_map_filter.
  - now apply NoDup_filter.
  - intros p Hp. apply filter_In in Hp as [Hp Hk].
    apply H5 in Hp as [Ha Hb]. split; [|assumption].
    apply in_map_iff in Ha as [r [Hid Hr]]. apply in_map_iff. exists r.
    split; [assumption|]. apply filter_In. split; [assumption|].
    now rewrite Hid.
  - intros k Hk. apply H6. apply in_map_iff in Hk as [r [Hid Hr]].
    apply filter_In in Hr as [Hr _]. apply in_map_iff. now exists r.
  - intros r d Hr. apply filter_In in Hr as [Hr _]. now apply H8.
Qed.

(** The constraints survive every command, accepted or rejected. *)
Lemma handler_keeps_consistent (c : Command) (st : Store) :
  consistent st -> consistent (after (handler_of c) st).
Proof.
  intros Hc. destruct c as [body|key body|key]; cbn [handler_of].
  - pose proof (post_tasks_run body st) as H.
    destruct (body_title body) as [| |t]; try (destruct H as [_ ->]; assumption).
    cbv zeta in H. destruct H as [_ ->].
    pose proof (inserted_consistent body t st Hc) as Hi.
    destruct (body_tags body); simpl; try assumption.
    apply tagged_consistent; [|assumption].
    simpl. rewrite map_app. apply in_or_app. right. now left.
  - pose proof (put_tasks_run key body st) as H.
    destruct (task_row st key) as [r|] eqn:Hr; [|destruct H as [_ ->]; assumption].
    apply task_row_key in Hr as [Hid Hin].
    destruct (body_title body); try (destruct H as [_ ->]; assumption).
    destruct H as [_ ->].
    destruct (body_tags body); try (now apply saved_consistent).
    apply tagged_consistent.
    + unfold untagged. cbn [Tasks]. rewrite saved_keys. apply in_map_iff. now exists r.
    + now apply untagged_consistent, saved_consistent.
  - destruct (delete_tasks_run key st) as [_ ->]. now apply destroyed_consistent.
Qed.

Lemma run_keeps_consistent (cs : list Command) (st : Store) :
  consistent st -> consistent (run cs st).
Proof.
  revert st. induction cs as [|c cs IH]; intros st Hc; simpl; [assumption|].
  now apply IH, handler_keeps_consistent.
Qed.

(** ** The specification's scenario, run *)

Example scenario_created :
  answer None None buy_milk
  = [ {| json_id := 1;
         json_title := JStr "Buy milk";
         json_due_date := JNull;
         json_description := JNull;
         json_location := JNull;
         json_status := JStr "pending";
         tags := [ {| name := "shopping" |}; {| name := "errand" |} ] |} ].
Proof. reflexivity. Qed.

Example scenario_updated :
  let st := after (put_tasks 1 (titled (JStr "Buy milk") (TagsArray ["errand"])))
                  buy_milk in
  answer None (Some "shopping") st = []
  /\ ids (answer None (Some "errand") st) = [1]
  /\ map tag_name (Tags st) = ["shopping"; "errand"].
Proof. repeat split; reflexivity. Qed.

Example init_store_by_due_date :
  ids (answer None None init_store) = [1; 3; 4; 5; 2].
Proof. reflexivity. Qed.

(** Tags are listed in the order of their keys, not in the order the
    associations were made. *)
Example tags_listed_by_key :
  let st := after (put_tasks 1 (titled (JStr "Buy milk")
                                       (TagsArray ["errand"; "shopping"])))
                  buy_milk in
  TaskTags st = [(1, 2); (1, 1)]
  /\ tag_names st 1 = ["shopping"; "errand"].
Proof. split; reflexivity. Qed.

(** [_] stands for one character, of one byte or of several. *)
Example like_one_character :
  Sqlite.like "a_b" "aあb" = true
  /\ Sqlite.like "%__%" "あ" = false
  /\ Sqlite.like "%__%" "ああ" = true.
Proof. repeat split; reflexivity. Qed.

(** What [DATEONLY] stores: a calendar date as written, and
    "Invalid date" for the empty string and for a day the calendar does
    not have. *)
Example dateonly_stored :
  map to_date_column [JStr "2026-01-21"; JStr ""; JStr "2026-02-30"; JNull]
  = [Some "2026-01-21"; Some "Invalid date"; Some "Invalid date"; None]
  /\ DATEONLY.sanitize (JStr "") = JStr "".
Proof. split; reflexivity. Qed.

(** * The query resolver *)

(** What is listed with a task. *)

Lemma tags_of_listed (q tag : option string) (st : Store) (j : TaskJson) :
  In j (answer q tag st) ->
  exists r, In r (Tasks st) /\ j = json_of (r, included_tags (includeClause tag) st r)
            /\ where_holds (whereClause q) r = true.
Proof.
  rewrite answer_rows, in_map_iff. intros [[r ts] [<- Hrt]].
  apply select_rows_In in Hrt as (Hin & Hw & Ht & _). simpl in *.
  exists r. now rewrite Ht.
Qed.

Lemma names_of_tag_objs (l : list TagRow) :
  map name (map tag_obj l) = map tag_name l.
Proof. rewrite map_map. reflexivity. Qed.

Lemma falsy_clauses (q tag : option string) :
  truthy q = false -> truthy tag = false ->
  whereClause q = None /\ includeClause tag = {| include_where := None |}.
Proof.
  intros Hq Ht. unfold whereClause, includeClause. rewrite Ht.
  destruct q; [now rewrite Hq|]; auto.
Qed.

Lemma map_filter_names (x : string) (l : list TagRow) :
  map tag_name (filter (fun g => String.eqb (tag_name g) x) l)
  = filter (fun n => String.eqb n x) (map tag_name l).
Proof.
  induction l as [|g l IH]; simpl; [reflexivity|].
  destruct (String.eqb (tag_name g) x); simpl; now rewrite IH.
Qed.

(** C8.  Executing the client's query takes exactly one call to the
    store, whatever the filters and however many tasks match, and the
    tables are left as they were.  What that one call brings is the
    whole answer: the tasks that pass the filters, each the response
    object of its row, and with each task the names of its tags, all of
    them when there is no tag filter and those that equal the filter
    when there is one. *)
Theorem GetTasks_one_store_call (q tag : option string) (w : World) :
  exists found,
    GetTasks q tag w
    = (inr found, {| store := store w; round_trips := round_trips w + 1 |})
    /\ (forall k,
          In k (ids found) <->
          exists r, In r (Tasks (store w)) /\ id r = k
                    /\ where_holds (whereClause q) r = true
                    /\ (forall x, tag = Some x -> x <> "" ->
                                  has_tag (store w) k x))
    /\ (forall j,
          In j found ->
          exists r ts,
            In r (Tasks (store w)) /\ j = json_of (r, ts)
            /\ (truthy tag = false ->
                map tag_name ts = tag_names (store w) (id r))
            /\ (forall x, tag = Some x -> x <> "" ->
                   map tag_name ts
                   = filter (fun n => String.eqb n x)
                            (tag_names (store w) (id r)))).
Proof.
  exists (answer q tag (store w)). split; [|split].
  - rewrite GetTasks_run, answer_rows, Nat.add_1_r. reflexivity.
  - intros k. rewrite ids_answer.
    destruct (truthy tag) eqn:Ht.
    + destruct tag as [x|]; [|discriminate].
      assert (Hx : x <> "").
      { intros ->. discriminate. }
      rewrite includeClause_filter by assumption. split.
      * intros (r & Hin & <- & Hw & Hk). exists r. repeat split; try assumption.
        intros x' [= <-] _. now apply join_keeps_has_tag in Hk.
      * intros (r & Hin & <- & Hw & Hk). exists r. repeat split; try assumption.
        apply join_keeps_has_tag. now apply Hk.
    + destruct (falsy_clauses None tag eq_refl Ht) as [_ ->]. split.
      * intros (r & Hin & <- & Hw & _). exists r. repeat split; try assumption.
        intros x -> Hx. apply String.eqb_neq in Hx. simpl in Ht.
        rewrite Hx in Ht. discriminate.
      * intros (r & Hin & <- & Hw & _). exists r. auto.
  - intros j Hj. apply tags_of_listed in Hj as (r & Hr & -> & _).
    exists r, (included_tags (includeClause tag) (store w) r).
    split; [exact Hr|]. split; [reflexivity|]. split.
    + intros Ht. destruct (falsy_clauses None tag eq_refl Ht) as [_ ->].
      reflexivity.
    + intros x -> Hx. rewrite includeClause_filter by assumption.
      unfold included_tags. simpl. apply map_filter_names.
Qed.

Lemma to_of_column (c : option string) : to_column (of_column c) = c.
Proof. now destruct c. Qed.

Lemma Sorted_map {A B} (f : A -> B) (R : B -> B -> Prop) (l : list A) :
  Sorted (fun x y => R (f x) (f y)) l -> Sorted R (map f l).
Proof.
  induction 1 as [|x l Hs IH Hhd]; simpl; constructor; [assumption|].
  destruct Hhd; simpl; constructor; assumption.
Qed.

Lemma Sorted_weaken {A} (R S : A -> A -> Prop) (l : list A) :
  (forall x y, R x y -> S x y) -> Sorted R l -> Sorted S l.
Proof.
  intros HRS. induction 1 as [|x l Hs IH Hhd]; constructor; [assumption|].
  destruct Hhd; constructor; auto.
Qed.

Lemma StronglySorted_behind {A} (R : A -> A -> Prop) (front back : list A) (a : A) :
  StronglySorted R (front ++ a :: back) -> Forall (R a) back.
Proof.
  induction front as [|x front IH]; simpl; intros H.
  - now apply StronglySorted_inv in H.
  - apply IH. now apply StronglySorted_inv in H.
Qed.

(** C9.  Every answer, with or without filters, is in ascending order
    of the stored due date, each task before every task that follows it.
    Tasks without a due date come first, always; and of two tasks with
    calendar dates the one listed first has the earlier date, or the
    same. *)
Theorem answer_ordered_by_due_date (q tag : option string) (st : Store) :
  StronglySorted due_le (answer q tag st)
  /\ (forall front a back b,
        answer q tag st = front ++ a :: back -> In b back ->
        json_due_date b = JNull -> json_due_date a = JNull)
  /\ (forall front a back b y m d y' m' d',
        answer q tag st = front ++ a :: back -> In b back ->
        y < 100 * 100 -> m < 100 -> d < 100 ->
        y' < 100 * 100 -> m' < 100 -> d' < 100 ->
        json_due_date a = JStr (iso_date y m d) ->
        json_due_date b = JStr (iso_date y' m' d') ->
        date_le y m d y' m' d').
Proof.
  assert (Hs : StronglySorted due_le (answer q tag st)).
  { apply Sorted_StronglySorted; [exact due_le_trans|].
    rewrite answer_rows. apply Sorted_map. unfold select_rows.
    eapply Sorted_weaken; [|apply (order_by_Sorted (fun rt => due_date (fst rt)))].
    intros x y H. unfold due_le. simpl. now rewrite !to_of_column. }
  assert (Hpair : forall front a back b,
             answer q tag st = front ++ a :: back -> In b back -> due_le a b).
  { intros front a back b Heq Hb. rewrite Heq in Hs.
    apply StronglySorted_behind in Hs. rewrite Forall_forall in Hs. auto. }
  split; [exact Hs|]. split.
  - intros front a back b Heq Hb Hnull.
    assert (Ha : In a (answer q tag st)).
    { rewrite Heq. apply in_or_app. right. now left. }
    specialize (Hpair front a back b Heq Hb). unfold due_le in Hpair.
    rewrite Hnull in Hpair. rewrite answer_rows in Ha.
    apply in_map_iff in Ha as [rt [<- _]]. simpl in *.
    rewrite to_of_column in Hpair. now destruct (due_date (fst rt)).
  - intros front a back b y m d y' m' d' Heq Hb Hy Hm Hd Hy' Hm' Hd' Ha Hb'.
    specialize (Hpair front a back b Heq Hb). unfold due_le in Hpair.
    rewrite Ha, Hb' in Hpair. simpl in Hpair. now apply iso_date_leb.
Qed.

Lemma answer_ordered_by_due_date_witness :
  map json_due_date (answer None None init_store)
  = [ JStr (iso_date 2026 1 21); JStr (iso_date 2026 1 22);
      JStr (iso_date 2026 1 22); JStr (iso_date 2026 1 24);
      JStr (iso_date 2026 1 26) ]
  /\ date_le 2026 1 21 2026 1 26.
Proof.
  split; [reflexivity|].
  destruct (answer_ordered_by_due_date None None init_store) as (_ & _ & H).
  pose (first_task := hd (json_of (created_row first_update "" init_store, []))
                         (answer None None init_store)).
  pose (last_task := last (answer None None init_store) first_task).
  apply (H [] first_task (tl (answer None None init_store)) last_task);
    try reflexivity; try lia.
  vm_compute. auto 10.
Defined.

(** C1.  The specification's scenario, run: after creating "Buy milk"
    with the tags shopping and errand, the query with the tag filter
    shopping returns that task with the tag shopping alone, though the
    task is associated with both. *)
Theorem tag_filter_answer_lists_only_the_filter_tag :
  answer None (Some "shopping") buy_milk
  = [ {| json_id := 1;
         json_title := JStr "Buy milk";
         json_due_date := JNull;
         json_description := JNull;
         json_location := JNull;
         json_status := JStr "pending";
         tags := [ {| name := "shopping" |} ] |} ]
  /\ tag_names buy_milk 1 = ["shopping"; "errand"].
Proof. split; reflexivity. Qed.

(** C3.  A search term is read as a pattern: on a store whose only task
    is titled "abc", with no description and no location, the terms [_]
    and [%] both return the task, though neither occurs in any of its
    fields. *)
Theorem wildcard_term_matches_without_occurring :
  ids (answer (Some "_") None abc_store) = [1]
  /\ ids (answer (Some "%") None abc_store) = [1]
  /\ map (matches_text "_") (Tasks abc_store) = [false]
  /\ map (matches_text "%") (Tasks abc_store) = [false].
Proof. repeat split; reflexivity. Qed.

(** C4, where the claim fails: the empty string as tag filter is no
    filter.  The query returns the task of [abc_store], which has no
    tag at all. *)
Lemma empty_tag_filter_returns_untagged_task :
  ids (answer None (Some "") abc_store) = [1]
  /\ tag_names abc_store 1 = []
  /\ TaskTags abc_store = [].
Proof. repeat split; reflexivity. Qed.

(** C4, amended.  For every tag filter [x] other than the empty string,
    the query returns the tasks that have a tag whose name equals [x],
    and no others; with a search term as well, those of them that pass
    the term's [where] clause. *)
Theorem tag_filter_exact (st : Store) (q : option string) (x : string) (k : nat) :
  x <> "" ->
  (In k (ids (answer None (Some x) st)) <->
   In k (map id (Tasks st)) /\ has_tag st k x)
  /\ (In k (ids (answer q (Some x) st)) <->
      exists r, In r (Tasks st) /\ id r = k
                /\ where_holds (whereClause q) r = true /\ has_tag st k x).
Proof.
  intros Hx. rewrite !ids_answer, includeClause_filter by assumption. split.
  - split.
    + intros (r & Hin & <- & _ & Hk). apply join_keeps_has_tag in Hk.
      split; [now apply in_map|assumption].
    + intros [Hin Ht]. apply in_map_iff in Hin as [r [<- Hin]].
      exists r. rewrite join_keeps_has_tag. auto.
  - split.
    + intros (r & Hin & <- & Hw & Hk). apply join_keeps_has_tag in Hk.
      exists r. auto.
    + intros (r & Hin & <- & Hw & Ht). exists r.
      rewrite join_keeps_has_tag. auto.
Qed.

Lemma tag_filter_exact_witness :
  "shop" <> ""
  /\ (In 1 (ids (answer None (Some "shop") buy_milk)) <->
      In 1 (map id (Tasks buy_milk)) /\ has_tag buy_milk 1 "shop").
Proof.
  assert (H : "shop" <> "") by discriminate.
  split; [exact H|].
  exact (proj1 (tag_filter_exact buy_milk None "shop" 1 H)).
Defined.

(** * The REST handlers *)

(** C7, where the claim fails: a key that has never been issued names
    no task; deleting it is confirmed all the same, and the task created
    next is given that key, so a later query returns it. *)
Lemma deleted_key_is_issued_later :
  map id (Tasks buy_milk) = [1]
  /\ response_of (delete_tasks 2) buy_milk = json_message "Deleted"
  /\ ids (answer None None
            (run [Create (titled (JStr "Buy bread") TagsMissing)]
                 (after (delete_tasks 2) buy_milk)))
     = [1; 2].
Proof. repeat split; reflexivity. Qed.

(** C7, amended.  For every key, one that names no task included, the
    delete handler answers with the confirmation "Deleted".  No query on
    the store it leaves returns a task with that key; and for a key that
    has been issued (it is not above the key sequence), no query returns
    it after any further commands either, since new tasks get keys above
    the sequence. *)
Theorem delete_tasks_succeeds_and_removes (key : nat) (st : Store) :
  response_of (delete_tasks key) st = json_message "Deleted"
  /\ (forall q tag,
        ~ In key (ids (answer q tag (after (delete_tasks key) st))))
  /\ (key <= task_seq st ->
      forall cs q tag,
        ~ In key (ids (answer q tag (run cs (after (delete_tasks key) st))))).
Proof.
  destruct (delete_tasks_run key st) as [Hres Hst]. rewrite Hst.
  split; [exact Hres|]. split.
  - intros q tag Hin. apply answer_keys in Hin.
    now apply destroyed_absent in Hin.
  - intros Hseq cs q tag Hin. apply answer_keys in Hin.
    revert Hin. apply run_keeps_absent; [apply destroyed_absent|exact Hseq].
Qed.

Lemma delete_tasks_succeeds_and_removes_witness :
  1 <= task_seq buy_milk
  /\ ~ In 1 (ids (answer None None
                    (run [Create (titled (JStr "Buy bread") TagsMissing)]
                         (after (delete_tasks 1) buy_milk)))).
Proof.
  assert (H : 1 <= task_seq buy_milk) by (vm_compute; apply le_n).
  split; [exact H|].
  exact (proj2 (proj2 (delete_tasks_succeeds_and_removes 1 buy_milk)) H
               [Create (titled (JStr "Buy bread") TagsMissing)] None None).
Defined.

(** C6.  An update whose key names no task answers 404 "Not found" and
    leaves the whole store as it was: no task, no tag and no association
    changes. *)
Theorem put_tasks_unknown_key (key : nat) (body : Body) (st : Store) :
  ~ In key (map id (Tasks st)) ->
  response_of (put_tasks key body) st = status_error 404 "Not found"
  /\ after (put_tasks key body) st = st.
Proof.
  intros Hout. apply task_row_none in Hout.
  pose proof (put_tasks_run key body st) as H. now rewrite Hout in H.
Qed.

Lemma put_tasks_unknown_key_witness :
  ~ In 7 (map id (Tasks buy_milk))
  /\ response_of (put_tasks 7 (titled (JStr "Buy tea") (TagsArray ["shopping"])))
                 buy_milk
     = status_error 404 "Not found"
  /\ after (put_tasks 7 (titled (JStr "Buy tea") (TagsArray ["shopping"])))
           buy_milk
     = buy_milk.
Proof.
  assert (H : ~ In 7 (map id (Tasks buy_milk))).
  { vm_compute. intros [E|[]]. discriminate E. }
  split; [exact H|].
  exact (put_tasks_unknown_key 7 (titled (JStr "Buy tea") (TagsArray ["shopping"]))
                               buy_milk H).
Defined.

(** C2.  A create whose title is the empty string is accepted: the
    response is the created task, and a row with the empty title is
    stored.  An update to the empty title is accepted too.  The client's
    create form refuses the same title and sends nothing. *)
Theorem post_tasks_accepts_empty_title :
  response_of (post_tasks (titled (JStr "") TagsMissing)) empty_store
  = json_task {| pk := 1;
                 dataValues := {| v_title := JStr "";
                                  v_description := JUndefined;
                                  v_status := JStr "pending";
                                  v_due_date := JUndefined;
                                  v_location := JUndefined |};
                 inst_Tags := None |}
  /\ map title (Tasks (after (post_tasks (titled (JStr "") TagsMissing))
                             empty_store))
     = [""]
  /\ map title (Tasks (after (put_tasks 1 (titled (JStr "") TagsMissing))
                             buy_milk))
     = [""]
  /\ handleCreate initialFormState = None.
Proof. repeat split; reflexivity. Qed.

(** One accepted update with a [tags] array leaves the task associated
    with the listed names and no others. *)
Lemma put_tasks_replaces_tags (st : Store) (key : nat) (body : Body)
      (names : list string) (t : string) :
  NoDup (map tag_id (Tags st)) ->
  In key (map id (Tasks st)) ->
  body_title body = JStr t ->
  body_tags body = TagsArray names ->
  forall n, In n (tag_names (after (put_tasks key body) st) key) <-> In n names.
Proof.
  intros Hnd Hin Ht Htags n.
  pose proof (put_tasks_run key body st) as H.
  destruct (task_row st key) as [r|] eqn:Hr;
    [|apply task_row_none in Hr; contradiction].
  rewrite Ht, Htags in H. destruct H as [_ ->].
  rewrite tagged_names.
  - split; [|auto]. intros [Hn|Hn]; [|assumption].
    unfold tag_names in Hn. apply in_map_iff in Hn as [g [_ Hg]].
    apply joined_tags_In in Hg as [Hp _]. simpl in Hp.
    apply filter_In in Hp as [_ Hp]. simpl in Hp.
    rewrite Nat.eqb_refl in Hp. discriminate.
  - exact Hnd.
  - intros i Hi. simpl in Hi. apply filter_In in Hi as [_ Hi]. simpl in Hi.
    rewrite Nat.eqb_refl in Hi. discriminate.
Qed.

(** C5.  Update replaces the whole tag set: for a task that exists, an
    update with the tags [a, b] followed by an accepted update with the
    tags [b, c] leaves the task associated with the names [b] and [c],
    and with no other.  In between, when the first update is accepted,
    the task is associated with [a] and [b] and no other. *)
Theorem put_tasks_twice_replaces_tags (st : Store) (key : nat)
        (first second : Body) (a b c t : string) :
  NoDup (map tag_id (Tags st)) ->
  In key (map id (Tasks st)) ->
  body_tags first = TagsArray [a; b] ->
  body_tags second = TagsArray [b; c] ->
  body_title second = JStr t ->
  (forall t1, body_title first = JStr t1 ->
     forall n, In n (tag_names (after (put_tasks key first) st) key)
               <-> n = a \/ n = b)
  /\ forall n,
       In n (tag_names (after (put_tasks key second)
                              (after (put_tasks key first) st)) key)
       <-> n = b \/ n = c.
Proof.
  intros Hnd Hin Htags1 Htags2 Ht. split.
  - intros t1 Ht1 n.
    rewrite (put_tasks_replaces_tags st key first [a; b] t1) by assumption.
    simpl. intuition congruence.
  - intros n.
    rewrite (put_tasks_replaces_tags _ key second [b; c] t).
    + simpl. intuition congruence.
    + now apply put_tasks_tag_keys_unique.
    + now rewrite (proj1 (put_tasks_keys key first st)).
    + exact Ht.
    + exact Htags2.
Qed.

Lemma put_tasks_twice_replaces_tags_witness :
  NoDup (map tag_id (Tags buy_milk))
  /\ In 1 (map id (Tasks buy_milk))
  /\ (In "shopping" (tag_names (after (put_tasks 1 second_update)
                                      (after (put_tasks 1 first_update) buy_milk))
                               1)
      <-> "shopping" = "errand" \/ "shopping" = "later").
Proof.
  assert (Hnd : NoDup (map tag_id (Tags buy_milk))).
  { vm_compute. distinct_literals. }
  assert (Hin : In 1 (map id (Tasks buy_milk))) by (vm_compute; now left).
  split; [exact Hnd|]. split; [exact Hin|].
  exact (proj2 (put_tasks_twice_replaces_tags
                  buy_milk 1 first_update second_update
                  "dairy" "errand" "later" "Buy milk"
                  Hnd Hin eq_refl eq_refl eq_refl) "shopping").
Defined.

(** C10, where the claim fails: an update whose title is [null] and
    which has no [tags] field is rejected and overwrites nothing; the
    description and the status it supplies are not stored. *)
Lemma put_tasks_with_null_title_overwrites_nothing :
  response_of (put_tasks 1 update_with_null_title) buy_milk
  = status_error 500 "Update failed"
  /\ after (put_tasks 1 update_with_null_title) buy_milk = buy_milk
  /\ map description (Tasks buy_milk) = [None]
  /\ map status (Tasks buy_milk) = [Some "pending"].
Proof. repeat split; reflexivity. Qed.

(** C10, amended.  An update of an existing task whose [tags] field is
    missing or not an array never touches the tags or the associations.
    When it carries a title it is accepted: the row takes the title and
    every other scalar value the body supplies (for the due date:
    [null], or a calendar date written [YYYY-MM-DD]), and no other row
    changes.  When the title is absent or [null] it is rejected with
    500 "Update failed" and the store is left as it was. *)
Theorem put_tasks_without_tags_array (st : Store) (key : nat) (body : Body) :
  In key (map id (Tasks st)) ->
  is_array (body_tags body) = false ->
  Tags (after (put_tasks key body) st) = Tags st
  /\ TaskTags (after (put_tasks key body) st) = TaskTags st
  /\ (title_missing body ->
      response_of (put_tasks key body) st = status_error 500 "Update failed"
      /\ after (put_tasks key body) st = st)
  /\ (forall t, body_title body = JStr t ->
        answers_task (response_of (put_tasks key body) st) key
                     (body_values body)
        /\ (exists r,
              task_row (after (put_tasks key body) st) key = Some r
              /\ title r = t
              /\ overwritten (body_description body) (description r)
              /\ date_overwritten (body_due_date body) (due_date r)
              /\ overwritten (body_location body) (location r)
              /\ overwritten (body_status body) (status r))
        /\ (forall r, In r (Tasks st) -> id r <> key ->
                      In r (Tasks (after (put_tasks key body) st)))).
Proof.
  intros Hin Harr.
  pose proof (put_tasks_run key body st) as H.
  destruct (task_row st key) as [r|] eqn:Hr;
    [|apply task_row_none in Hr; contradiction].
  assert (Hsaved : forall t, body_title body = JStr t ->
            response_of (put_tasks key body) st
            = json_task {| pk := key; dataValues := set_values (body_values body);
                           inst_Tags := None |}
            /\ after (put_tasks key body) st = saved key (body_values body) st).
  { intros t Ht. rewrite Ht in H.
    destruct (body_tags body); [exact H|exact H|discriminate Harr]. }
  unfold title_missing.
  destruct (body_title body) as [| |t] eqn:Ht.
  - destruct H as [Hres ->]. repeat split; auto; discriminate.
  - destruct H as [Hres ->]. repeat split; auto; discriminate.
  - destruct (Hsaved t eq_refl) as [Hres ->].
    split; [reflexivity|]. split; [reflexivity|]. split.
    + intros [E|E]; discriminate E.
    + intros t' [= <-]. split; [rewrite Hres; apply set_values_answers|]. split.
      * exists (update_row (body_values body) r).
        split; [now apply saved_row|].
        unfold update_row, body_values. simpl. rewrite Ht.
        split; [reflexivity|].
        assert (Hdate : date_overwritten
                          (body_due_date body)
                          (write_date (body_due_date body) (due_date r))).
        { destruct (body_due_date body) as [| |s]; simpl; auto.
          intros y m d Hy Hc ->. unfold DATEONLY.stringify.
          now rewrite format_iso_date. }
        destruct (body_description body), (body_location body),
                 (body_status body); simpl; auto.
      * intros r' Hr' Hid. simpl. apply in_map_iff. exists r'.
        split; [|assumption]. apply Nat.eqb_neq in Hid. now rewrite Hid.
Qed.

Lemma put_tasks_without_tags_array_witness :
  In 1 (map id (Tasks buy_milk))
  /\ is_array (body_tags update_without_tags) = false
  /\ Tags (after (put_tasks 1 update_without_tags) buy_milk) = Tags buy_milk
  /\ TaskTags (after (put_tasks 1 update_without_tags) buy_milk)
     = TaskTags buy_milk
  /\ map title (Tasks (after (put_tasks 1 update_without_tags) buy_milk))
     = ["Buy oat milk"]
  /\ map due_date (Tasks (after (put_tasks 1 update_without_tags) buy_milk))
     = [Some (iso_date 2026 2 1)].
Proof.
  assert (Hin : In 1 (map id (Tasks buy_milk))) by (vm_compute; now left).
  split; [exact Hin|]. split; [reflexivity|].
  pose proof (put_tasks_without_tags_array
                buy_milk 1 update_without_tags Hin eq_refl) as H.
  split; [exact (proj1 H)|]. split; [exact (proj1 (proj2 H))|].
  split; reflexivity.
Defined.

(** * The client *)

(** ** Tag names typed into a form *)

Lemma split_not_nil (sep : ascii) (s : string) : split sep s <> [].
Proof.
  induction s as [|c s IH]; simpl; [discriminate|].
  destruct (Ascii.eqb c sep); [discriminate|].
  destruct (split sep s); [contradiction|discriminate].
Qed.

Lemma split_pieces_no_comma (s p : string) :
  In p (split "," s) -> no_comma p = true.
Proof.
  revert p. induction s as [|c s IH]; simpl; intros p Hp.
  - destruct Hp as [<-|[]]. reflexivity.
  - destruct (Ascii.eqb c ",") eqn:E.
    + destruct Hp as [<-|Hp]; [reflexivity|auto].
    + destruct (split "," s) as [|h t] eqn:Hs; [now destruct (split_not_nil "," s)|].
      destruct Hp as [<-|Hp].
      * simpl. rewrite E. simpl. apply IH. now left.
      * apply IH. now right.
Qed.

(** How [trim_start] goes on: the text does not begin with white space
    and stays, or a white-space character is taken from its front. *)
Lemma trim_start_cases (s : string) :
  (starts_with_space s = false /\ trim_start s = s)
  \/ exists sp rest,
       s = String.append sp rest /\ white_space sp = true
       /\ trim_start s = trim_start rest.
Proof.
  destruct s as [|a s1]; [now left|].
  cbn [trim_start starts_with_space]. destruct (space1 a) eqn:E1.
  { right. exists (String a EmptyString), s1. auto. }
  destruct s1 as [|b s2]; [now left|]. destruct (space2 a b) eqn:E2.
  { right. exists (String a (String b EmptyString)), s2. auto. }
  destruct s2 as [|c s3]; [now left|]. destruct (space3 a b c) eqn:E3.
  { right. exists (String a (String b (String c EmptyString))), s3. auto. }
  now left.
Qed.

Lemma white_space_not_empty (sp : string) :
  white_space sp = true -> 0 < String.length sp.
Proof. destruct sp; [discriminate|simpl; lia]. Qed.

Lemma length_append (a b : string) :
  String.length (String.append a b) = String.length a + String.length b.
Proof. induction a as [|x a IH]; simpl; [reflexivity|now rewrite IH]. Qed.

Lemma no_comma_append (a b : string) :
  no_comma (String.append a b) = no_comma a && no_comma b.
Proof.
  induction a as [|x a IH]; simpl; [reflexivity|].
  now rewrite IH, andb_assoc.
Qed.

(** What holds of a text once its front is trimmed, shown by taking the
    white-space characters off one at a time. *)
Lemma trim_start_rec (P : string -> Prop) :
  (forall s, starts_with_space s = false -> trim_start s = s -> P s) ->
  forall s, P (trim_start s).
Proof.
  intros Hstop s.
  assert (H : forall n s, String.length s <= n -> P (trim_start s)).
  { clear s. induction n as [|n IH]; intros s Hn.
    - destruct s; [|simpl in Hn; lia]. now apply Hstop.
    - destruct (trim_start_cases s) as [[Hs Ht]|(sp & rest & -> & Hsp & ->)].
      + rewrite Ht. now apply Hstop.
      + apply IH. apply white_space_not_empty in Hsp.
        rewrite length_append in Hn. lia. }
  now apply (H (String.length s)).
Qed.

Lemma trim_start_starts_clean (s : string) :
  starts_with_space (trim_start s) = false.
Proof. apply trim_start_rec. auto. Qed.

Lemma trim_start_no_comma (s : string) :
  no_comma s = true -> no_comma (trim_start s) = true.
Proof.
  assert (H : forall n s, String.length s <= n ->
                          no_comma s = true -> no_comma (trim_start s) = true).
  { clear s. induction n as [|n IH]; intros s Hn Hs.
    - destruct s; [reflexivity|simpl in Hn; lia].
    - destruct (trim_start_cases s) as [[_ ->]|(sp & rest & -> & Hsp & ->)];
        [exact Hs|].
      rewrite no_comma_append in Hs. apply andb_true_iff in Hs as [_ Hs].
      apply IH; [|exact Hs]. apply white_space_not_empty in Hsp.
      rewrite length_append in Hn. lia. }
  now apply (H (String.length s)).
Qed.

Lemma trim_start_fixed (s : string) :
  starts_with_space s = false -> trim_start s = s.
Proof.
  destruct s as [|a [|b [|c s3]]]; cbn [trim_start starts_with_space];
    intros H.
  - reflexivity.
  - rewrite orb_false_r in H. now rewrite H.
  - rewrite orb_false_r in H. now apply orb_false_iff in H as [-> ->].
  - apply orb_false_iff in H as [-> H]. now apply orb_false_iff in H as [-> ->].
Qed.

Lemma trim_end_no_comma (s : string) :
  no_comma s = true -> no_comma (trim_end s) = true.
Proof.
  induction s as [|a s IH]; cbn [trim_end]; [auto|]. intros H.
  destruct (white_space (String a (trim_end s))); [reflexivity|].
  simpl in *. apply andb_true_iff in H as [-> H]. now apply IH.
Qed.

Lemma trim_end_ends_clean (s : string) : ends_with_space (trim_end s) = false.
Proof.
  induction s as [|a s IH]; cbn [trim_end]; [reflexivity|].
  destruct (white_space (String a (trim_end s))) eqn:E; [reflexivity|].
  cbn [ends_with_space]. now rewrite E, IH.
Qed.

Lemma trim_end_fixed (s : string) :
  ends_with_space s = false -> trim_end s = s.
Proof.
  induction s as [|a s IH]; [reflexivity|]. cbn [ends_with_space trim_end].
  intros H. apply orb_false_iff in H as [Hw Hs].
  now rewrite (IH Hs), Hw.
Qed.

Lemma trim_end_prefix (s : string) :
  exists rest, s = String.append (trim_end s) rest.
Proof.
  induction s as [|a s [rest IH]]; cbn [trim_end]; [now exists EmptyString|].
  destruct (white_space (String a (trim_end s))).
  - now exists (String a s).
  - exists rest. simpl. now rewrite <- IH.
Qed.

(** A text that begins with white space does so whatever follows it. *)
Lemma starts_with_space_append (p rest : string) :
  starts_with_space p = true ->
  starts_with_space (String.append p rest) = true.
Proof.
  destruct p as [|a [|b [|c p3]]]; cbn [starts_with_space String.append];
    [discriminate| | |].
  - rewrite orb_false_r. now intros ->.
  - rewrite orb_false_r. intros H. apply orb_true_iff in H as [-> | ->];
      [reflexivity|]. simpl. apply orb_true_r.
  - auto.
Qed.

Lemma trim_end_starts_clean (s : string) :
  starts_with_space s = false -> starts_with_space (trim_end s) = false.
Proof.
  intros Hs. destruct (trim_end_prefix s) as [rest Hrest].
  destruct (starts_with_space (trim_end s)) eqn:E; [|reflexivity].
  apply (starts_with_space_append _ rest) in E. congruence.
Qed.

Lemma trim_end_idem (s : string) : trim_end (trim_end s) = trim_end s.
Proof. apply trim_end_fixed, trim_end_ends_clean. Qed.

Lemma trim_idem (s : string) : trim (trim s) = trim s.
Proof.
  unfold trim.
  rewrite (trim_start_fixed (trim_end (trim_start s))).
  - apply trim_end_idem.
  - apply trim_end_starts_clean, trim_start_starts_clean.
Qed.

Lemma append_assoc (a b c : string) :
  String.append (String.append a b) c = String.append a (String.append b c).
Proof. induction a as [|x a IH]; simpl; [reflexivity|now rewrite IH]. Qed.

Lemma trim_start_takes_white_space (s : string) :
  exists front,
    Forall (fun sp => white_space sp = true) front
    /\ s = String.append (flatten front) (trim_start s).
Proof.
  assert (H : forall n s, String.length s <= n ->
                exists front,
                  Forall (fun sp => white_space sp = true) front
                  /\ s = String.append (flatten front) (trim_start s)).
  { clear s. induction n as [|n IH]; intros s Hn.
    - destruct s; [|simpl in Hn; lia]. now exists [].
    - destruct (trim_start_cases s) as [[_ ->]|(sp & rest & -> & Hsp & ->)];
        [now exists []|].
      destruct (IH rest) as (front & Hfront & Hrest).
      + apply white_space_not_empty in Hsp. rewrite length_append in Hn. lia.
      + exists (sp :: front). split; [now constructor|].
        cbn [flatten]. now rewrite append_assoc, <- Hrest. }
  now apply (H (String.length s)).
Qed.

Lemma trim_end_takes_white_space (s : string) :
  exists back,
    Forall (fun sp => white_space sp = true) back
    /\ s = String.append (trim_end s) (flatten back).
Proof.
  induction s as [|a s (back & Hback & IH)]; cbn [trim_end]; [now exists []|].
  destruct (white_space (String a (trim_end s))) eqn:E.
  - exists (String a (trim_end s) :: back). split; [now constructor|].
    cbn [flatten String.append]. now rewrite <- IH.
  - exists back. split; [assumption|]. cbn [String.append]. now rewrite <- IH.
Qed.

(** [trim] takes white-space characters from both ends, and nothing
    else, until neither end has one. *)
Lemma trim_takes_white_space (s : string) :
  exists front back,
    Forall (fun sp => white_space sp = true) front
    /\ Forall (fun sp => white_space sp = true) back
    /\ s = String.append (flatten front)
                         (String.append (trim s) (flatten back))
    /\ starts_with_space (trim s) = false
    /\ ends_with_space (trim s) = false.
Proof.
  destruct (trim_start_takes_white_space s) as (front & Hfront & Hs).
  destruct (trim_end_takes_white_space (trim_start s)) as (back & Hback & Ht).
  exists front, back. split; [assumption|]. split; [assumption|].
  unfold trim. split; [now rewrite <- Ht|]. split.
  - apply trim_end_starts_clean, trim_start_starts_clean.
  - apply trim_end_ends_clean.
Qed.

Lemma clean_trim (s : string) : clean s -> trim s = s.
Proof.
  intros (_ & _ & Hs & He). unfold trim.
  rewrite (trim_start_fixed s Hs). now apply trim_end_fixed.
Qed.

Lemma trimmed_piece_clean (p : string) :
  no_comma p = true -> trim p <> "" -> clean (trim p).
Proof.
  intros Hp Hne. repeat split.
  - exact Hne.
  - now apply trim_end_no_comma, trim_start_no_comma.
  - apply trim_end_starts_clean, trim_start_starts_clean.
  - apply trim_end_ends_clean.
Qed.

Lemma parseTags_In (str n : string) :
  In n (parseTags str) <->
  exists p, In p (split "," str) /\ n = trim p /\ n <> "".
Proof.
  unfold parseTags. rewrite filter_In, in_map_iff. split.
  - intros [[p [<- Hp]] Hlen]. exists p. repeat split; [assumption|].
    intros E. rewrite E in Hlen. discriminate.
  - intros (p & Hp & -> & Hne). split; [now exists p|].
    destruct (trim p); [contradiction|reflexivity].
Qed.

(** White space is what JavaScript trims, the ideographic space
    included. *)
Example parseTags_example :
  parseTags "　買い物　,　家事 , ,x" = ["買い物"; "家事"; "x"].
Proof. reflexivity. Qed.

(** X1.  [parseTags] yields clean names only: none is empty, none holds
    a comma, none begins or ends with white space. *)
Theorem parseTags_clean (str : string) : Forall clean (parseTags str).
Proof.
  apply Forall_forall. intros n Hn.
  apply parseTags_In in Hn as (p & Hp & -> & Hne).
  apply trimmed_piece_clean; [|exact Hne].
  now apply split_pieces_no_comma with str.
Qed.

Lemma split_no_comma (a : string) : no_comma a = true -> split "," a = [a].
Proof.
  induction a as [|x a IH]; simpl; [reflexivity|]. intros H.
  apply andb_true_iff in H as [Hx Ha]. apply negb_true_iff in Hx.
  now rewrite Hx, (IH Ha).
Qed.

Lemma split_at_comma (a b : string) :
  no_comma a = true ->
  split "," (String.append a (String "," b)) = a :: split "," b.
Proof.
  induction a as [|x a IH]; simpl; [reflexivity|]. intros H.
  apply andb_true_iff in H as [Hx Ha]. apply negb_true_iff in Hx.
  now rewrite Hx, (IH Ha).
Qed.

Lemma join_cons (n m : string) (rest : list string) :
  join (n :: m :: rest)
  = String.append n (String "," (String.append " " (join (m :: rest)))).
Proof. reflexivity. Qed.

Lemma clean_length (n : string) : clean n -> (0 <? String.length n) = true.
Proof. intros [H _]. destruct n; [contradiction|reflexivity]. Qed.

Lemma trim_after_space (n : string) :
  clean n -> trim (String.append " " n) = n /\ trim n = n.
Proof.
  intros H. split; [|now apply clean_trim].
  unfold trim. simpl. now apply clean_trim.
Qed.

(** Joined with [', '] and parsed again, clean names come back as they
    were; a space before the first one changes nothing. *)
Lemma parseTags_join_lead (names : list string) (lead : string) :
  lead = "" \/ lead = " " ->
  Forall clean names ->
  parseTags (String.append lead (join names)) = names.
Proof.
  revert lead. induction names as [|n rest IH]; intros lead Hlead Hclean.
  - destruct Hlead as [-> | ->]; reflexivity.
  - inversion Hclean as [|? ? Hn Hrest]; subst.
    pose proof (clean_length n Hn) as Hlen.
    destruct (trim_after_space n Hn) as [Hsp Htr].
    assert (Hnc : no_comma (String.append lead n) = true).
    { rewrite no_comma_append. destruct Hn as (_ & -> & _).
      destruct Hlead as [-> | ->]; reflexivity. }
    assert (Htrim : trim (String.append lead n) = n).
    { destruct Hlead as [-> | ->]; assumption. }
    destruct rest as [|m rest].
    + unfold parseTags. change (join [n]) with n.
      rewrite split_no_comma by assumption. simpl.
      rewrite Htrim, Hlen. reflexivity.
    + rewrite join_cons, <- append_assoc.
      unfold parseTags. rewrite split_at_comma by assumption.
      cbn [map filter]. rewrite Htrim, Hlen. f_equal.
      apply (IH " "); [now right|assumption].
Qed.

Lemma parseTags_join (names : list string) :
  Forall clean names -> parseTags (join names) = names.
Proof. intros H. apply (parseTags_join_lead names ""); [now left|exact H]. Qed.

(** X2.  Opening the edit form on a listed task and saving it unchanged
    sends the task's tag names back as they are listed, provided each of
    them is clean. *)
Theorem edit_unchanged_sends_same_tags (task : TaskJson) (currentStatus : jsval) :
  Forall clean (map name (tags task)) ->
  body_tags (handleUpdate (startEdit task) currentStatus)
  = TagsArray (map name (tags task)).
Proof.
  intros H. unfold handleUpdate, startEdit. cbn [body_tags tagsStr].
  now rewrite parseTags_join.
Qed.

(** X3.  What [parseTags] reads from a tags field survives the trip
    through the list and the edit form: joined with [', '] and parsed
    again, the names are the same. *)
Theorem parseTags_join_parseTags (str : string) :
  parseTags (join (parseTags str)) = parseTags str.
Proof.
  apply parseTags_join, Forall_forall. intros n Hn.
  apply parseTags_In in Hn as (p & Hp & -> & Hne).
  apply trimmed_piece_clean; [|exact Hne].
  now apply split_pieces_no_comma with str.
Qed.

(** ** The expanded tasks *)

Lemma includes_In (key : nat) (l : list nat) :
  existsb (Nat.eqb key) l = true <-> In key l.
Proof.
  rewrite existsb_exists. split.
  - intros [x [Hx E]]. apply Nat.eqb_eq in E. now subst.
  - intros H. exists key. split; [assumption|apply Nat.eqb_refl].
Qed.

Lemma toggleExpand_key (key : nat) (prev : list nat) :
  In key (toggleExpand key prev) <-> ~ In key prev.
Proof.
  unfold toggleExpand. destruct (existsb (Nat.eqb key) prev) eqn:E.
  - apply includes_In in E. rewrite filter_In, Nat.eqb_refl. simpl.
    intuition discriminate.
  - assert (Hout : ~ In key prev).
    { intros H. apply includes_In in H. congruence. }
    rewrite in_app_iff. simpl. tauto.
Qed.

Lemma toggleExpand_other (key k : nat) (prev : list nat) :
  k <> key -> (In k (toggleExpand key prev) <-> In k prev).
Proof.
  intros Hk. unfold toggleExpand. destruct (existsb (Nat.eqb key) prev).
  - rewrite filter_In. apply Nat.eqb_neq in Hk. rewrite Hk. simpl. tauto.
  - rewrite in_app_iff. simpl. intuition congruence.
Qed.

(** X4.  [toggleExpand] flips whether the task is expanded and leaves
    every other task as it was; a list without repeats stays so. *)
Theorem toggleExpand_flips (key : nat) (prev : list nat) :
  (In key (toggleExpand key prev) <-> ~ In key prev)
  /\ (forall k, k <> key -> (In k (toggleExpand key prev) <-> In k prev))
  /\ (NoDup prev -> NoDup (toggleExpand key prev)).
Proof.
  split; [apply toggleExpand_key|]. split; [intros k; apply toggleExpand_other|].
  intros Hnd. unfold toggleExpand.
  destruct (existsb (Nat.eqb key) prev) eqn:E.
  - now apply NoDup_filter.
  - apply NoDup_snoc; [assumption|].
    intros H. apply includes_In in H. congruence.
Qed.

(** X5.  Toggling twice shows the same tasks expanded as before; when
    the task was collapsed at first, the list itself is as before. *)
Theorem toggleExpand_twice (key : nat) (prev : list nat) :
  (forall k, In k (toggleExpand key (toggleExpand key prev)) <-> In k prev)
  /\ (~ In key prev -> toggleExpand key (toggleExpand key prev) = prev).
Proof.
  split.
  - intros k. destruct (Nat.eq_dec k key) as [->|Hk].
    + rewrite !toggleExpand_key.
      destruct (in_dec Nat.eq_dec key prev); tauto.
    + now rewrite !toggleExpand_other.
  - intros Hout. unfold toggleExpand at 2.
    destruct (existsb (Nat.eqb key) prev) eqn:E;
      [apply includes_In in E; contradiction|].
    unfold toggleExpand.
    assert (Hin : existsb (Nat.eqb key) (prev ++ [key]) = true).
    { apply includes_In, in_or_app. right. now left. }
    rewrite Hin, filter_app. simpl. rewrite Nat.eqb_refl. simpl.
    rewrite app_nil_r. apply forallb_filter_id. apply forallb_forall.
    intros x Hx. apply negb_true_iff, Nat.eqb_neq. congruence.
Qed.

Lemma listed_buy_milk_clean : Forall clean (map name (tags listed_buy_milk)).
Proof.
  repeat constructor; try discriminate; reflexivity.
Qed.

Lemma edit_unchanged_sends_same_tags_witness :
  Forall clean (map name (tags listed_buy_milk))
  /\ body_tags (handleUpdate (startEdit listed_buy_milk) (JStr "pending"))
     = TagsArray ["shopping"; "errand"].
Proof.
  split; [exact listed_buy_milk_clean|].
  exact (edit_unchanged_sends_same_tags listed_buy_milk (JStr "pending")
                                        listed_buy_milk_clean).
Defined.

(** * The server, beyond the claims *)

(** ** Listings *)

Section OrderByPermutation.
Context {A : Type} (key : A -> option string).

Lemma insert_row_Permutation (x : A) (l : list A) :
  Permutation (Sqlite.insert_row key x l) (x :: l).
Proof.
  induction l as [|y l IH]; simpl; [reflexivity|].
  destruct (Sqlite.asc_leb (key y) (key x)); [|reflexivity].
  rewrite IH. apply perm_swap.
Qed.

Lemma order_by_Permutation (l : list A) : Permutation (Sqlite.order_by key l) l.
Proof.
  unfold Sqlite.order_by.
  assert (H : forall acc,
             Permutation (fold_left (fun acc x => Sqlite.insert_row key x acc) l acc)
                         (l ++ acc)).
  { induction l as [|x l IH]; intros acc; simpl; [reflexivity|].
    rewrite IH, insert_row_Permutation. symmetry. apply Permutation_middle. }
  rewrite H. now rewrite app_nil_r.
Qed.

End OrderByPermutation.

Lemma filter_all {A} (f : A -> bool) (l : list A) :
  (forall x, In x l -> f x = true) -> filter f l = l.
Proof. intros H. apply forallb_filter_id, forallb_forall, H. Qed.

Lemma rows_ids (f : TaskRow -> bool) (g : TaskRow -> list TagRow)
      (k : list TagRow -> bool) (l : list TaskRow) :
  map (fun rt => json_id (json_of rt))
      (filter (fun rt => k (snd rt)) (map (fun r => (r, g r)) (filter f l)))
  = map id (filter (fun r => f r && k (g r)) l).
Proof.
  induction l as [|r l IH]; [reflexivity|].
  cbn [filter]. destruct (f r); cbn [andb map filter snd]; [|exact IH].
  destruct (k (g r)); cbn [map]; [|exact IH].
  now rewrite IH.
Qed.

(** The keys of an answer are the keys of the rows that pass both
    filters, in some order. *)
Lemma ids_answer_Permutation (q tag : option string) (st : Store) :
  Permutation
    (ids (answer q tag st))
    (map id
       (filter (fun r => where_holds (whereClause q) r
                         && join_keeps (includeClause tag)
                              (included_tags (includeClause tag) st r))
               (Tasks st))).
Proof.
  unfold ids. rewrite answer_rows, map_map. unfold select_rows.
  rewrite (Permutation_map _ (order_by_Permutation _ _)).
  apply Permutation_refl'.
  apply (rows_ids (where_holds (whereClause q))
                  (included_tags (includeClause tag) st)
                  (join_keeps (includeClause tag))).
Qed.

Lemma or_null_clauses (s : string) :
  whereClause (or_null s) = whereClause (Some s)
  /\ includeClause (or_null s) = includeClause (Some s).
Proof.
  unfold or_null, whereClause, includeClause, truthy.
  destruct (String.eqb s "") eqn:E; simpl; rewrite ?E; split; reflexivity.
Qed.

(** X6.  Without filters the query lists every task once, each with all
    the names of its tags.  A filter that is [null] or the empty string
    is no filter, so the client's [|| null] on its search boxes changes
    nothing. *)
Theorem unfiltered_listing_is_complete (st : Store) :
  Permutation (ids (answer None None st)) (map id (Tasks st))
  /\ (forall j, In j (answer None None st) ->
        map name (tags j) = tag_names st (json_id j))
  /\ (forall q tag, truthy q = false -> truthy tag = false ->
        answer q tag st = answer None None st)
  /\ (forall searchQuery searchTag w,
        fetchTasksGraphQL searchQuery searchTag w
        = GetTasks (Some searchQuery) (Some searchTag) w).
Proof.
  split; [|split; [|split]].
  - rewrite ids_answer_Permutation. simpl.
    rewrite filter_all; [reflexivity|auto].
  - intros j Hj. apply tags_of_listed in Hj as (r & _ & -> & _).
    simpl. unfold included_tags. simpl. apply names_of_tag_objs.
  - intros q tag Hq Ht. rewrite !answer_rows.
    destruct (falsy_clauses q tag Hq Ht) as [-> ->]. reflexivity.
  - intros sq stg w. unfold fetchTasksGraphQL. rewrite !GetTasks_run.
    destruct (or_null_clauses sq) as [-> _].
    destruct (or_null_clauses stg) as [_ ->]. reflexivity.
Qed.

(** X7.  The two filters are a conjunction: a task is returned under a
    search term and a tag filter exactly when it is returned under each
    of them alone. *)
Theorem filters_are_conjoined (q tag : option string) (st : Store) (k : nat) :
  In k (ids (answer q tag st)) <->
  In k (ids (answer q None st)) /\ In k (ids (answer None tag st)).
Proof.
  rewrite !ids_answer. split.
  - intros (r & Hin & Hk & Hw & Hj). split; exists r; auto.
  - intros [(r & Hin & Hk & Hw & _) (r' & _ & Hk' & _ & Hj)].
    exists r. repeat split; try assumption.
    unfold included_tags in *. now rewrite Hk, <- Hk'.
Qed.

(** X8.  A search term that holds neither [%] nor [_] finds the tasks in
    whose title, description or location it occurs, letter case aside,
    and no others. *)
Theorem keyword_search_finds_occurrences (st : Store) (q : string) (k : nat) :
  no_wildcard q = true ->
  (In k (ids (answer (Some q) None st)) <->
   exists r, In r (Tasks st) /\ id r = k
             /\ (occurs_nocase q (title r)
                 \/ (exists d, description r = Some d /\ occurs_nocase q d)
                 \/ (exists l, location r = Some l /\ occurs_nocase q l))).
Proof.
  intros Hq. rewrite ids_answer.
  assert (Hcol : forall c,
            contains_column q c = true
            <-> exists s, c = Some s /\ occurs_nocase q s).
  { intros [s|]; simpl.
    - rewrite contains_nocase_iff. split; [intros H; now exists s|].
      now intros (s' & [= <-] & H).
    - split; [discriminate|]. now intros (s' & E & _). }
  split.
  - intros (r & Hin & Hk & Hw & _). exists r. repeat split; try assumption.
    rewrite where_holds_matches_text in Hw by assumption.
    unfold matches_text in Hw.
    apply orb_true_iff in Hw as [Hw|Hw];
      [apply orb_true_iff in Hw as [Hw|Hw]|].
    + left. now apply contains_nocase_iff.
    + right. left. now apply Hcol.
    + right. right. now apply Hcol.
  - intros (r & Hin & Hk & Hocc). exists r. repeat split; try assumption.
    rewrite where_holds_matches_text by assumption. unfold matches_text.
    destruct Hocc as [H|[H|H]].
    + apply contains_nocase_iff in H. now rewrite H.
    + apply Hcol in H. rewrite H. now rewrite orb_true_r.
    + apply Hcol in H. rewrite H. now rewrite orb_true_r.
Qed.

Lemma keyword_search_finds_occurrences_witness :
  no_wildcard "MILK" = true
  /\ In 1 (ids (answer (Some "MILK") None buy_milk)).
Proof.
  assert (H : no_wildcard "MILK" = true) by reflexivity.
  split; [exact H|].
  apply (proj2 (keyword_search_finds_occurrences buy_milk "MILK" 1 H)).
  exists (created_row (titled (JStr "Buy milk") TagsMissing) "Buy milk" empty_store).
  split; [now left|]. split; [reflexivity|]. left.
  exists "Buy ", "milk", "". split; reflexivity.
Defined.

(** X9.  Under a tag filter [x] that is not empty, a returned task is
    listed with those of its tag names that equal [x], and with no
    other. *)
Theorem tag_filter_lists_the_filter_tag (st : Store) (q : option string)
        (x : string) (j : TaskJson) :
  x <> "" -> In j (answer q (Some x) st) ->
  map name (tags j)
  = filter (fun n => String.eqb n x) (tag_names st (json_id j)).
Proof.
  intros Hx Hj. apply tags_of_listed in Hj as (r & _ & -> & _).
  rewrite includeClause_filter by assumption.
  simpl. unfold included_tags. simpl.
  rewrite names_of_tag_objs. apply map_filter_names.
Qed.

Lemma tag_filter_lists_the_filter_tag_witness :
  "errand" <> ""
  /\ In listed_errand (answer None (Some "errand") buy_milk)
  /\ map name (tags listed_errand)
     = filter (fun n => String.eqb n "errand") (tag_names buy_milk 1).
Proof.
  assert (H : "errand" <> "") by discriminate.
  assert (Hin : In listed_errand (answer None (Some "errand") buy_milk))
    by (now left).
  split; [exact H|]. split; [exact Hin|].
  exact (tag_filter_lists_the_filter_tag buy_milk None "errand" listed_errand
                                         H Hin).
Defined.

(** ** Writes *)

Lemma tagged_Tags_incl (task : nat) (names : list string) (st : Store)
      (g : TagRow) :
  In g (Tags st) -> In g (Tags (tagged task names st)).
Proof.
  revert st. induction names as [|n names IH]; intros st H; simpl; [exact H|].
  apply IH. simpl. now apply with_tag_incl.
Qed.

(** The store a create leaves: as it was, or with the new row and its
    tags. *)
Lemma after_post_tasks (body : Body) (st : Store) :
  (title_missing body /\ after (post_tasks body) st = st)
  \/ exists t,
       body_title body = JStr t
       /\ after (post_tasks body) st
          = with_tags (body_tags body) (id (created_row body t st))
                      (inserted (created_row body t st) st).
Proof.
  pose proof (post_tasks_run body st) as H. unfold title_missing.
  destruct (body_title body) as [| |t]; cbv zeta in H; destruct H as [_ H];
    [left; auto|left; auto|right; now exists t].
Qed.

Lemma handler_keeps_tags (c : Command) (st : Store) (g : TagRow) :
  In g (Tags st) -> In g (Tags (after (handler_of c) st)).
Proof.
  intros Hg. destruct c as [body|key body|key]; cbn [handler_of].
  - destruct (after_post_tasks body st) as [[_ ->]|(t & _ & ->)]; [exact Hg|].
    destruct (body_tags body); simpl; try exact Hg.
    now apply tagged_Tags_incl.
  - destruct (after_put_tasks key body st) as [->|[->|[names ->]]];
      [exact Hg|exact Hg|].
    now apply tagged_Tags_incl.
  - destruct (delete_tasks_run key st) as [_ ->]. exact Hg.
Qed.

(** X10.  No command ever removes a tag: a tag row that is in the store
    stays in it, also when the last task that carried it is deleted or
    retagged. *)
Theorem tags_are_never_deleted (cs : list Command) (st : Store) (g : TagRow) :
  In g (Tags st) -> In g (Tags (run cs st)).
Proof.
  revert st. induction cs as [|c cs IH]; intros st Hg; simpl; [exact Hg|].
  apply IH. now apply handler_keeps_tags.
Qed.

Lemma tags_are_never_deleted_witness :
  In {| tag_id := 1; tag_name := "shopping" |} (Tags buy_milk)
  /\ In {| tag_id := 1; tag_name := "shopping" |}
        (Tags (run [Update 1 second_update; Delete 1] buy_milk))
  /\ Tasks (run [Update 1 second_update; Delete 1] buy_milk) = [].
Proof.
  assert (H : In {| tag_id := 1; tag_name := "shopping" |} (Tags buy_milk))
    by (now left).
  split; [exact H|]. split; [|reflexivity].
  exact (tags_are_never_deleted [Update 1 second_update; Delete 1] buy_milk _ H).
Defined.

Lemma filter_idem {A} (f : A -> bool) (l : list A) :
  filter f (filter f l) = filter f l.
Proof.
  apply filter_all. intros x Hx. now apply filter_In in Hx.
Qed.

Lemma destroyed_absent_key (key : nat) (st : Store) :
  consistent st -> ~ In key (map id (Tasks st)) -> destroyed key st = st.
Proof.
  intros Hc Hout. destruct st as [ts gs tt s1 s2]. unfold destroyed. simpl in *.
  f_equal.
  - apply filter_all. intros r Hr. apply negb_true_iff, Nat.eqb_neq.
    intros E. apply Hout. rewrite <- E. now apply in_map.
  - apply filter_all. intros p Hp. apply negb_true_iff, Nat.eqb_neq.
    intros E. apply Hout. rewrite <- E.
    apply (associations_linked _ Hc p Hp).
Qed.

(** X11.  Deleting is idempotent: a second delete of the same key leaves
    the store as the first did.  On a store that keeps the schema's
    constraints, deleting a key that names no task changes nothing. *)
Theorem delete_tasks_is_idempotent (key : nat) (st : Store) :
  after (delete_tasks key) (after (delete_tasks key) st)
  = after (delete_tasks key) st
  /\ (consistent st -> ~ In key (map id (Tasks st)) ->
      after (delete_tasks key) st = st).
Proof.
  rewrite !(proj2 (delete_tasks_run key _)). split.
  - unfold destroyed. simpl. now rewrite !filter_idem.
  - apply destroyed_absent_key.
Qed.

Lemma buy_milk_consistent : consistent buy_milk.
Proof.
  apply (handler_keeps_consistent
           (Create (titled (JStr "Buy milk") (TagsArray ["shopping"; "errand"])))
           empty_store).
  apply empty_store_consistent.
Qed.

Lemma delete_tasks_is_idempotent_witness :
  consistent buy_milk
  /\ ~ In 7 (map id (Tasks buy_milk))
  /\ after (delete_tasks 7) buy_milk = buy_milk.
Proof.
  assert (Hout : ~ In 7 (map id (Tasks buy_milk))).
  { vm_compute. intros [E|[]]. discriminate E. }
  split; [exact buy_milk_consistent|]. split; [exact Hout|].
  exact (proj2 (delete_tasks_is_idempotent 7 buy_milk)
               buy_milk_consistent Hout).
Defined.

(** ** What a write leaves alone *)

(** The associations of one task are not among those removed for
    another. *)
Lemma associations_without (key k : nat) (l : list (nat * nat)) :
  key <> k ->
  filter (fun p => fst p =? k) (filter (fun p => negb (fst p =? key)) l)
  = filter (fun p => fst p =? k) l.
Proof.
  intros Hk. induction l as [|p l IH]; simpl; [reflexivity|].
  destruct (fst p =? key) eqn:E; simpl.
  - apply Nat.eqb_eq in E.
    assert (Hp : (fst p =? k) = false) by (apply Nat.eqb_neq; congruence).
    now rewrite Hp.
  - now rewrite IH.
Qed.

Lemma flat_map_ext_In {A B} (f g : A -> list B) (l : list A) :
  (forall x, In x l -> f x = g x) -> flat_map f l = flat_map g l.
Proof.
  intros H. induction l as [|x l IH]; simpl; [reflexivity|].
  rewrite (H x) by now left. f_equal. apply IH. intros y Hy. apply H. now right.
Qed.

Lemma joined_tags_same (st st' : Store) (k : nat) :
  Tags st' = Tags st -> TaskTags st' = TaskTags st ->
  joined_tags st' k = joined_tags st k.
Proof. unfold joined_tags. now intros -> ->. Qed.

Lemma task_row_same (st st' : Store) (k : nat) :
  Tasks st' = Tasks st -> task_row st' k = task_row st k.
Proof. unfold task_row. now intros ->. Qed.

Lemma joined_tags_without (st st' : Store) (key k : nat) :
  key <> k -> Tags st' = Tags st ->
  TaskTags st' = filter (fun p => negb (fst p =? key)) (TaskTags st) ->
  joined_tags st' k = joined_tags st k.
Proof.
  intros Hk HT HTT. unfold joined_tags.
  now rewrite HT, HTT, associations_without.
Qed.

Lemma joined_tags_associate (st : Store) (key g k : nat) :
  key <> k -> joined_tags (associate key g st) k = joined_tags st k.
Proof.
  intros Hk. unfold joined_tags, associate. simpl.
  destruct (associated key g (TaskTags st)); [reflexivity|].
  rewrite filter_app. simpl. apply Nat.eqb_neq in Hk. rewrite Hk.
  now rewrite app_nil_r.
Qed.

Lemma joined_tags_with_tag (st : Store) (n : string) (k : nat) :
  (forall p, In p (TaskTags st) -> In (snd p) (map tag_id (Tags st))) ->
  joined_tags (with_tag n st) k = joined_tags st k.
Proof.
  intros Hfk. unfold joined_tags.
  destruct (with_tag_frame n st) as (_ & -> & _).
  destruct (with_tag_cases n st) as [_ [[-> _]|(-> & _ & Hid & _)]];
    [reflexivity|].
  apply flat_map_ext_In. intros i Hi.
  apply index_order_In, associations_In in Hi.
  rewrite filter_app. simpl.
  destruct (tag_id (found_or_created n st) =? i) eqn:E;
    [|apply app_nil_r].
  apply Nat.eqb_eq in E. apply Hfk in Hi. simpl in Hi. rewrite <- E, Hid in Hi.
  now apply next_rowid_fresh in Hi.
Qed.

Lemma tagged_other (key : nat) (names : list string) (st : Store) (k : nat) :
  consistent st -> In key (map id (Tasks st)) -> key <> k ->
  joined_tags (tagged key names st) k = joined_tags st k.
Proof.
  revert st. induction names as [|n names IH]; intros st Hc Hkey Hk; simpl;
    [reflexivity|].
  destruct (with_tag_frame n st) as (HT & _ & _).
  assert (Hc1 : consistent (with_tag n st)) by now apply with_tag_consistent.
  rewrite IH.
  - rewrite joined_tags_associate by assumption.
    apply joined_tags_with_tag. intros p Hp.
    apply (associations_linked _ Hc p Hp).
  - apply associate_consistent; [now rewrite HT| |assumption].
    apply in_map, found_or_created_In.
  - simpl. now rewrite HT.
  - assumption.
Qed.

Lemma task_row_saved_other (key : nat) (v : Values) (st : Store) (k : nat) :
  key <> k -> task_row (saved key v st) k = task_row st k.
Proof.
  intros Hk. unfold task_row, saved. simpl.
  induction (Tasks st) as [|r l IH]; simpl; [reflexivity|].
  destruct (id r =? key) eqn:E.
  - apply Nat.eqb_eq in E. simpl.
    assert (Hr : (id r =? k) = false) by (apply Nat.eqb_neq; congruence).
    now rewrite Hr.
  - destruct (id r =? k); [reflexivity|exact IH].
Qed.

Lemma task_row_destroyed_other (key : nat) (st : Store) (k : nat) :
  key <> k -> task_row (destroyed key st) k = task_row st k.
Proof.
  intros Hk. unfold task_row, destroyed. simpl.
  induction (Tasks st) as [|r l IH]; simpl; [reflexivity|].
  destruct (id r =? key) eqn:E; simpl.
  - apply Nat.eqb_eq in E.
    assert (Hr : (id r =? k) = false) by (apply Nat.eqb_neq; congruence).
    now rewrite Hr.
  - destruct (id r =? k); [reflexivity|exact IH].
Qed.

Lemma task_row_inserted (r : TaskRow) (st : Store) (k : nat) :
  In k (map id (Tasks st)) -> task_row (inserted r st) k = task_row st k.
Proof.
  intros Hk. unfold task_row, inserted. simpl.
  induction (Tasks st) as [|x l IH]; simpl in *; [contradiction|].
  destruct (id x =? k) eqn:E; [reflexivity|].
  apply IH. destruct Hk as [Hk|Hk]; [|assumption].
  apply Nat.eqb_neq in E. contradiction.
Qed.

(** X12.  A command leaves every task it does not address as it was: the
    row, and the list of its tag names.  This holds for creates, for
    updates and deletes of another task, and for rejected requests, on
    every store that keeps the schema's constraints. *)
Theorem other_tasks_are_untouched (c : Command) (st : Store) (k : nat) :
  consistent st -> In k (map id (Tasks st)) -> target c <> Some k ->
  task_row (after (handler_of c) st) k = task_row st k
  /\ tag_names (after (handler_of c) st) k = tag_names st k.
Proof.
  intros Hc Hin Hk. unfold tag_names.
  destruct c as [body|key body|key]; cbn [handler_of target] in *.
  - destruct (after_post_tasks body st) as [[_ ->]|(t & _ & ->)]; [auto|].
    set (r := created_row body t st).
    assert (Hnew : id r <> k).
    { intros E. apply (next_rowid_fresh (task_seq st) (map id (Tasks st))).
      unfold r in E. simpl in E. now rewrite E. }
    destruct (with_tags_frame (body_tags body) (id r) (inserted r st)) as [HT _].
    split.
    + rewrite (task_row_same (inserted r st)) by exact HT.
      now apply task_row_inserted.
    + f_equal. destruct (body_tags body); simpl; try reflexivity.
      rewrite tagged_other; [reflexivity| | |assumption].
      * now apply inserted_consistent.
      * simpl. rewrite map_app. apply in_or_app. right. now left.
  - assert (Hne : key <> k) by congruence.
    pose proof (put_tasks_run key body st) as H.
    destruct (task_row st key) as [r|] eqn:Hr; [|destruct H as [_ ->]; auto].
    apply task_row_key in Hr as [Hid Hr].
    destruct (body_title body); try (destruct H as [_ ->]; now auto).
    destruct H as [_ ->].
    destruct (body_tags body) as [| |names];
      try (split; [now apply task_row_saved_other|reflexivity]).
    set (st1 := saved key (body_values body) st).
    destruct (tagged_frame key names (untagged key st1)) as [HT _].
    split.
    + rewrite (task_row_same (untagged key st1)) by exact HT.
      now apply task_row_saved_other.
    + f_equal. rewrite tagged_other.
      * now apply joined_tags_without with key.
      * now apply untagged_consistent, saved_consistent.
      * unfold untagged, st1. cbn [Tasks]. rewrite saved_keys.
        apply in_map_iff. now exists r.
      * assumption.
  - assert (Hne : key <> k) by congruence.
    destruct (delete_tasks_run key st) as [_ ->]. split.
    + now apply task_row_destroyed_other.
    + f_equal. now apply joined_tags_without with key.
Qed.

Lemma other_tasks_are_untouched_witness :
  consistent init_store
  /\ In 2 (map id (Tasks init_store))
  /\ target (Update 1 second_update) <> Some 2
  /\ tag_names (after (put_tasks 1 second_update) init_store) 2
     = tag_names init_store 2.
Proof.
  assert (Hin : In 2 (map id (Tasks init_store))) by (simpl; auto).
  assert (Ht : target (Update 1 second_update) <> Some 2) by discriminate.
  split; [exact init_store_consistent|]. split; [exact Hin|]. split; [exact Ht|].
  exact (proj2 (other_tasks_are_untouched (Update 1 second_update) init_store 2
                                          init_store_consistent Hin Ht)).
Defined.

(** ** Create, then list *)

Lemma NoDup_ids_answer (q tag : option string) (st : Store) :
  NoDup (map id (Tasks st)) -> NoDup (ids (answer q tag st)).
Proof.
  intros H. eapply Permutation_NoDup.
  - symmetry. apply ids_answer_Permutation.
  - now apply NoDup_map_filter.
Qed.

Lemma joined_tags_none (st : Store) (k : nat) :
  (forall p, In p (TaskTags st) -> fst p <> k) -> joined_tags st k = [].
Proof.
  intros H. unfold joined_tags.
  replace (filter (fun p => fst p =? k) (TaskTags st)) with (@nil (nat * nat));
    [reflexivity|].
  induction (TaskTags st) as [|p l IH]; simpl; [reflexivity|].
  assert (E : (fst p =? k) = false) by (apply Nat.eqb_neq, H; now left).
  rewrite E. apply IH. intros p' Hp'. apply H. now right.
Qed.

Lemma listed_unfiltered (st : Store) (r : TaskRow) :
  In r (Tasks st) ->
  In (json_of (r, joined_tags st (id r))) (answer None None st).
Proof.
  intros Hr. rewrite answer_rows. apply in_map. apply select_rows_In.
  simpl. auto.
Qed.

(** X13.  A task that has just been created is listed by the unfiltered
    query, under a key no task had before, with its title, with the
    status "pending" whatever status the request carried, and with
    exactly the tag names the request asked for; and no key is listed
    twice. *)
Theorem created_task_is_listed (body : Body) (st : Store) (t : string) :
  consistent st -> body_title body = JStr t ->
  exists j,
    In j (answer None None (after (post_tasks body) st))
    /\ ~ In (json_id j) (map id (Tasks st))
    /\ json_title j = JStr t
    /\ json_status j = JStr "pending"
    /\ (forall n, In n (map name (tags j)) <-> In n (tag_list (body_tags body)))
    /\ NoDup (ids (answer None None (after (post_tasks body) st))).
Proof.
  intros Hc Ht.
  pose proof (handler_keeps_consistent (Create body) st Hc) as Hc'.
  cbn [handler_of] in Hc'.
  destruct (after_post_tasks body st) as [[[E|E] _]|(t' & Ht' & Hst)];
    try congruence.
  assert (t' = t) by congruence. subst t'.
  set (r := created_row body t st) in *.
  set (st' := after (post_tasks body) st) in *.
  assert (Hfresh : ~ In (id r) (map id (Tasks st))) by apply next_rowid_fresh.
  assert (HT : Tasks st' = Tasks st ++ [r]).
  { rewrite Hst. now destruct (with_tags_frame (body_tags body) (id r)
                                               (inserted r st)) as [-> _]. }
  exists (json_of (r, joined_tags st' (id r))). split; [|split; [|split; [|split; [|split]]]].
  - apply listed_unfiltered. rewrite HT. apply in_or_app. right. now left.
  - exact Hfresh.
  - reflexivity.
  - reflexivity.
  - intros n. cbn [tags json_of snd]. rewrite names_of_tag_objs.
    fold (tag_names st' (id r)).
    assert (Hnone : joined_tags (inserted r st) (id r) = []).
    { apply joined_tags_none. intros p Hp E. apply Hfresh. rewrite <- E.
      apply (associations_linked _ Hc p Hp). }
    rewrite Hst. destruct (body_tags body) as [| |names]; cbn [with_tags tag_list].
    + unfold tag_names. rewrite Hnone. reflexivity.
    + unfold tag_names. rewrite Hnone. reflexivity.
    + rewrite tagged_names.
      * unfold tag_names at 1. rewrite Hnone. simpl. tauto.
      * apply (tag_keys_unique _ Hc).
      * intros i Hi. exfalso. apply Hfresh.
        apply (associations_linked _ Hc _ Hi).
  - apply NoDup_ids_answer. apply (task_keys_unique _ Hc').
Qed.

Lemma created_task_is_listed_witness :
  consistent buy_milk
  /\ body_title second_update = JStr "Buy milk"
  /\ exists j,
       In j (answer None None (after (post_tasks second_update) buy_milk))
       /\ ~ In (json_id j) (map id (Tasks buy_milk))
       /\ json_title j = JStr "Buy milk"
       /\ json_status j = JStr "pending"
       /\ (forall n, In n (map name (tags j))
                     <-> In n (tag_list (body_tags second_update)))
       /\ NoDup (ids (answer None None (after (post_tasks second_update) buy_milk))).
Proof.
  split; [exact buy_milk_consistent|]. split; [reflexivity|].
  exact (created_task_is_listed second_update buy_milk "Buy milk"
                                buy_milk_consistent eq_refl).
Defined.

(** ** The client's writes, end to end *)

Lemma task_row_In (st : Store) (r : TaskRow) :
  NoDup (map id (Tasks st)) -> In r (Tasks st) -> task_row st (id r) = Some r.
Proof.
  intros Hnd Hr. destruct (task_row st (id r)) as [r'|] eqn:E.
  - apply task_row_key in E as [Hid Hr']. f_equal.
    now apply (NoDup_map_eq id (Tasks st)).
  - apply task_row_none in E. exfalso. apply E. now apply in_map.
Qed.

Lemma write_of_column (c old : option string) : write (of_column c) old = c.
Proof. now destruct c. Qed.

(** A due date read from the table and written back stays as it is. *)
Lemma write_date_of_column (c old : option string) :
  (forall d, c = Some d -> Moment.format d = d) ->
  write_date (of_column c) old = c.
Proof.
  destruct c as [d|]; [|reflexivity]. intros H. simpl.
  unfold DATEONLY.stringify. now rewrite (H d eq_refl).
Qed.

(** X14.  [toggleStatus] on a listed task, sent to the update handler,
    flips the status and keeps the title, the description, the due date
    and the location.  The task's tags become the names it was listed
    with: all of its tags when the listing had no tag filter. *)
Theorem toggleStatus_flips_status (st : Store) (q tag : option string)
        (j : TaskJson) :
  consistent st -> In j (answer q tag st) ->
  exists r r',
    task_row st (json_id j) = Some r
    /\ task_row (after (put_tasks (json_id j) (toggleStatus j)) st) (json_id j)
       = Some r'
    /\ title r' = title r
    /\ description r' = description r
    /\ due_date r' = due_date r
    /\ location r' = location r
    /\ status r' = Some (newStatus (of_column (status r)))
    /\ (forall n,
          In n (tag_names (after (put_tasks (json_id j) (toggleStatus j)) st)
                          (json_id j))
          <-> In n (map name (tags j)))
    /\ (truthy tag = false -> map name (tags j) = tag_names st (json_id j)).
Proof.
  intros Hc Hj. apply tags_of_listed in Hj as (r & Hr & -> & _).
  pose proof (task_row_In st r (task_keys_unique _ Hc) Hr) as Hrow.
  cbn [json_id json_of fst].
  set (body := toggleStatus (json_of (r, included_tags (includeClause tag) st r))).
  pose proof (put_tasks_run (id r) body st) as H. rewrite Hrow in H.
  change (body_title body) with (JStr (title r)) in H.
  change (body_tags body)
    with (TagsArray (map name (map tag_obj (included_tags (includeClause tag) st r))))
    in H.
  destruct H as [_ Hst].
  exists r, (update_row (body_values body) r).
  split; [exact Hrow|]. split; [|split; [|split; [|split; [|split; [|split; [|split]]]]]].
  - rewrite Hst.
    rewrite (task_row_same (untagged (id r) (saved (id r) (body_values body) st)))
      by apply tagged_frame.
    rewrite (task_row_same (saved (id r) (body_values body) st)) by reflexivity.
    now apply saved_row.
  - reflexivity.
  - apply write_of_column.
  - apply write_date_of_column. intros d.
    apply (due_dates_formatted _ Hc r d Hr).
  - apply write_of_column.
  - reflexivity.
  - intros n.
    apply (put_tasks_replaces_tags st (id r) body _ (title r)).
    + apply (tag_keys_unique _ Hc).
    + now apply in_map.
    + reflexivity.
    + reflexivity.
  - intros Ht. cbn [tags json_of snd]. rewrite names_of_tag_objs.
    unfold includeClause. rewrite Ht. reflexivity.
Qed.

Lemma toggleStatus_flips_status_witness :
  consistent buy_milk
  /\ In listed_buy_milk (answer None None buy_milk)
  /\ (forall n,
        In n (tag_names (after (put_tasks 1 (toggleStatus listed_buy_milk)) buy_milk) 1)
        <-> In n ["shopping"; "errand"]).
Proof.
  assert (Hin : In listed_buy_milk (answer None None buy_milk)) by (now left).
  split; [exact buy_milk_consistent|]. split; [exact Hin|].
  destruct (toggleStatus_flips_status buy_milk None None listed_buy_milk
                                      buy_milk_consistent Hin)
    as (r & r' & _ & _ & _ & _ & _ & _ & _ & Hn & _).
  exact Hn.
Defined.

Lemma tagged_new_tags (key : nat) (names : list string) (st : Store)
      (g : TagRow) :
  In g (Tags (tagged key names st)) ->
  In g (Tags st) \/ In (tag_name g) names.
Proof.
  revert st. induction names as [|n names IH]; intros st Hg; simpl in *;
    [now left|].
  apply IH in Hg as [Hg|Hg]; [|now right; right]. simpl in Hg.
  apply with_tag_new in Hg as [Hg|[-> _]]; [now left|].
  right. left. symmetry. apply (with_tag_cases n st).
Qed.

(** X15.  The create form sends nothing when its title is empty.  What
    it does send the server accepts: one task is stored under the form's
    title, which is not empty, and every tag row the request adds has a
    clean name. *)
Theorem form_creates_titled_task (newTask : TaskInput) (st : Store) :
  (handleCreate newTask = None <-> form_title newTask = "")
  /\ (forall body, handleCreate newTask = Some body ->
        exists task r,
          response_of (post_tasks body) st = json_task task
          /\ Tasks (after (post_tasks body) st) = Tasks st ++ [r]
          /\ title r = form_title newTask
          /\ title r <> ""
          /\ (forall g, In g (Tags (after (post_tasks body) st)) ->
                        In g (Tags st) \/ clean (tag_name g))).
Proof.
  unfold handleCreate.
  destruct (String.eqb_spec (form_title newTask) "") as [E|E].
  - split; [tauto|discriminate].
  - split; [split; [discriminate|contradiction]|].
    intros body [= <-].
    set (body := {| body_title := JStr (form_title newTask);
                    body_description := _ |}).
    pose proof (post_tasks_run body st) as H.
    change (body_title body) with (JStr (form_title newTask)) in H.
    cbv zeta in H. destruct H as [Hres Hst].
    change (body_tags body) with (TagsArray (parseTags (tagsStr newTask))) in Hst.
    cbn [with_tags] in Hst.
    set (r := created_row body (form_title newTask) st) in *.
    eexists _, r. split; [exact Hres|]. rewrite Hst.
    split; [now destruct (tagged_frame (id r) (parseTags (tagsStr newTask))
                                       (inserted r st)) as [-> _]|].
    split; [reflexivity|]. split; [exact E|].
    intros g Hg. apply tagged_new_tags in Hg as [Hg|Hg]; [now left|].
    right. apply parseTags_In in Hg as (p & Hp & -> & Hne).
    apply trimmed_piece_clean; [|exact Hne].
    now apply split_pieces_no_comma with (tagsStr newTask).
Qed.

Lemma form_creates_titled_task_witness :
  form_title initialFormState = ""
  /\ handleCreate initialFormState = None.
Proof.
  split; [reflexivity|].
  exact (proj2 (proj1 (form_creates_titled_task initialFormState empty_store))
               eq_refl).
Defined.

(** ** Invariants of the store *)

(** X16.  Whatever commands the server has run since [init()], or since
    empty tables, the store keeps the schema's constraints: task keys,
    tag keys and tag names are unique, no association is stored twice,
    every association links a task and a tag that exist, no key lies
    above its sequence, and every due date is text as [DATEONLY] writes
    it. *)
Theorem schema_constraints_hold (cs : list Command) :
  consistent (run cs init_store) /\ consistent (run cs empty_store).
Proof.
  split; apply run_keeps_consistent.
  - exact init_store_consistent.
  - exact empty_store_consistent.
Qed.

(** X17.  The loop over a [tags] array finds or creates: afterwards each
    listed name has one tag row, and only one, the task is associated
    with it, and a tag of that name that was there before is the one
    used. *)
Theorem add_tags_finds_or_creates (task : TaskInstance) (names : list string)
        (st : Store) (n : string) :
  consistent st -> In (pk task) (map id (Tasks st)) -> In n names ->
  exists g,
    In g (Tags (store (snd (add_tags task names (world_of st)))))
    /\ tag_name g = n
    /\ In (pk task, tag_id g)
          (TaskTags (store (snd (add_tags task names (world_of st)))))
    /\ (forall g', In g' (Tags (store (snd (add_tags task names (world_of st)))))
                   -> tag_name g' = n -> g' = g)
    /\ (forall g0, In g0 (Tags st) -> tag_name g0 = n -> g0 = g).
Proof.
  intros Hc Hkey Hn. rewrite add_tags_run. cbn [snd store world_of].
  set (st' := tagged (pk task) names st).
  assert (Hc' : consistent st') by now apply tagged_consistent.
  assert (Hnames : In n (tag_names st' (pk task))).
  { apply tagged_names.
    - apply (tag_keys_unique _ Hc).
    - intros i Hi. apply (associations_linked _ Hc _ Hi).
    - now right. }
  unfold tag_names in Hnames. apply in_map_iff in Hnames as [g [Hg Hj]].
  apply joined_tags_In in Hj as [Hassoc Hin].
  assert (Huniq : forall g', In g' (Tags st') -> tag_name g' = n -> g' = g).
  { intros g' Hg' Hn'. apply (NoDup_map_eq tag_name (Tags st'));
      [apply (tag_names_unique _ Hc')|assumption|assumption|congruence]. }
  exists g. repeat split; try assumption.
  intros g0 Hg0 Hn0. apply Huniq; [|assumption].
  now apply tagged_Tags_incl.
Qed.

Lemma add_tags_finds_or_creates_witness :
  consistent buy_milk
  /\ In (pk buy_milk_instance) (map id (Tasks buy_milk))
  /\ In "later" ["errand"; "later"]
  /\ exists g,
       In g (Tags (store (snd (add_tags buy_milk_instance ["errand"; "later"]
                                       (world_of buy_milk)))))
       /\ tag_name g = "later"
       /\ In (pk buy_milk_instance, tag_id g)
             (TaskTags (store (snd (add_tags buy_milk_instance ["errand"; "later"]
                                             (world_of buy_milk)))))
       /\ (forall g',
             In g' (Tags (store (snd (add_tags buy_milk_instance
                                               ["errand"; "later"]
                                               (world_of buy_milk)))))
             -> tag_name g' = "later" -> g' = g)
       /\ (forall g0, In g0 (Tags buy_milk) -> tag_name g0 = "later" -> g0 = g).
Proof.
  assert (Hin : In (pk buy_milk_instance) (map id (Tasks buy_milk)))
    by (now left).
  assert (Hn : In "later" ["errand"; "later"]) by (right; now left).
  split; [exact buy_milk_consistent|]. split; [exact Hin|]. split; [exact Hn|].
  exact (add_tags_finds_or_creates buy_milk_instance ["errand"; "later"]
                                   buy_milk "later" buy_milk_consistent Hin Hn).
Defined.

(** ** Sending an update again *)

Lemma tagged_Tags_prefix (key : nat) (names : list string) (st : Store) :
  exists more, Tags (tagged key names st) = Tags st ++ more.
Proof.
  revert st. induction names as [|n names IH]; intros st; simpl.
  - exists []. now rewrite app_nil_r.
  - destruct (IH (associate key (tag_id (found_or_created n st)) (with_tag n st)))
      as [more ->]. simpl.
    destruct (with_tag_cases n st) as [_ [[-> _]|(-> & _)]].
    + now exists more.
    + rewrite <- app_assoc. now eexists.
Qed.

Lemma find_app_found {A} (f : A -> bool) (l more : list A) (x : A) :
  find f l = Some x -> find f (l ++ more) = Some x.
Proof.
  induction l as [|y l IH]; simpl; [discriminate|].
  destruct (f y); [auto|exact IH].
Qed.

Lemma find_snoc {A} (f : A -> bool) (l : list A) (x : A) :
  find f l = None -> f x = true -> find f (l ++ [x]) = Some x.
Proof.
  induction l as [|y l IH]; simpl; intros Hl Hx; [now rewrite Hx|].
  destruct (f y); [discriminate|auto].
Qed.

Lemma with_tag_finds (n : string) (st : Store) :
  find (fun g => String.eqb (tag_name g) n) (Tags (with_tag n st))
  = Some (found_or_created n st).
Proof.
  unfold with_tag, found_or_created.
  destruct (find _ (Tags st)) as [g|] eqn:E; [exact E|]. simpl.
  apply find_snoc; [exact E|]. simpl. apply String.eqb_refl.
Qed.

Lemma store_eq (a b : Store) :
  Tasks b = Tasks a -> Tags b = Tags a -> TaskTags b = TaskTags a ->
  task_seq b = task_seq a -> tag_seq b = tag_seq a -> b = a.
Proof. destruct a, b; simpl; intros; now subst. Qed.

(** Run again on a store that already has the tags it ends with, the
    loop makes the same associations and adds no tag. *)
Lemma tagged_again (key : nat) (names : list string) (a b : Store) :
  Tasks b = Tasks a -> task_seq b = task_seq a -> TaskTags b = TaskTags a ->
  Tags b = Tags (tagged key names a) ->
  tag_seq b = tag_seq (tagged key names a) ->
  tagged key names b = tagged key names a.
Proof.
  revert a b. induction names as [|n names IH]; intros a b HT Hs HTT HG Hgs.
  - simpl in *. now apply store_eq.
  - cbn [tagged] in *.
    set (g := found_or_created n a) in *.
    set (a2 := associate key (tag_id g) (with_tag n a)) in *.
    assert (Hfind : find (fun h => String.eqb (tag_name h) n) (Tags b) = Some g).
    { rewrite HG. destruct (tagged_Tags_prefix key names a2) as [more ->].
      apply find_app_found. apply with_tag_finds. }
    assert (Hg : found_or_created n b = g).
    { unfold found_or_created. now rewrite Hfind. }
    assert (Hb : with_tag n b = b).
    { unfold with_tag. now rewrite Hfind. }
    rewrite Hg, Hb.
    destruct (with_tag_frame n a) as (HT1 & HTT1 & Hs1).
    apply IH; unfold a2; simpl.
    + now rewrite HT1.
    + now rewrite Hs1.
    + now rewrite HTT, HTT1.
    + exact HG.
    + exact Hgs.
Qed.

Lemma tagged_TaskTags_others (key : nat) (names : list string) (st : Store) :
  filter (fun p => negb (fst p =? key)) (TaskTags (tagged key names st))
  = filter (fun p => negb (fst p =? key)) (TaskTags st).
Proof.
  revert st. induction names as [|n names IH]; intros st; simpl; [reflexivity|].
  rewrite IH. simpl. destruct (with_tag_frame n st) as (_ & -> & _).
  destruct (associated _ _ _); [reflexivity|].
  rewrite filter_app. simpl. rewrite Nat.eqb_refl. simpl. apply app_nil_r.
Qed.

Lemma write_idem (v : jsval) (old : option string) :
  write v (write v old) = write v old.
Proof. now destruct v. Qed.

Lemma write_date_idem (v : jsval) (old : option string) :
  write_date v (write_date v old) = write_date v old.
Proof. now destruct v. Qed.

Lemma saved_idem (key : nat) (v : Values) (st : Store) :
  Tasks (saved key v (saved key v st)) = Tasks (saved key v st).
Proof.
  unfold saved. simpl. rewrite map_map. apply map_ext. intros r.
  destruct (id r =? key) eqn:E; [|now rewrite E].
  simpl. rewrite E. unfold update_row. simpl.
  rewrite !write_idem, write_date_idem.
  now destruct (v_title v).
Qed.

(** X18.  Updating is idempotent: the same update sent a second time
    leaves the store exactly as the first one left it, whether the
    request is accepted, rejected, or addresses no task. *)
Theorem put_tasks_is_idempotent (key : nat) (body : Body) (st : Store) :
  after (put_tasks key body) (after (put_tasks key body) st)
  = after (put_tasks key body) st.
Proof.
  pose proof (put_tasks_run key body st) as H1.
  destruct (task_row st key) as [r|] eqn:Hr.
  - destruct (body_title body) as [| |t] eqn:Ht;
      try (destruct H1 as [_ H1]; now rewrite !H1).
    destruct H1 as [_ H1].
    set (v := body_values body) in *.
    assert (Hrow : task_row (after (put_tasks key body) st) key
                   = Some (update_row v r)).
    { rewrite H1. destruct (body_tags body) as [| |names];
        try (now apply saved_row).
      rewrite (task_row_same (untagged key (saved key v st)))
        by apply tagged_frame.
      rewrite (task_row_same (saved key v st)) by reflexivity.
      now apply saved_row. }
    pose proof (put_tasks_run key body (after (put_tasks key body) st)) as H2.
    rewrite Hrow, Ht in H2. destruct H2 as [_ H2]. fold v in H2.
    rewrite H2, H1. clear H1 H2 Hrow.
    destruct (body_tags body) as [| |names].
    + apply store_eq; try reflexivity. apply saved_idem.
    + apply store_eq; try reflexivity. apply saved_idem.
    + set (a := untagged key (saved key v st)).
      destruct (tagged_frame key names a) as [HT Hs].
      apply tagged_again.
      * cbn [untagged Tasks]. unfold saved at 1. cbn [Tasks]. rewrite HT.
        apply saved_idem.
      * cbn [untagged saved task_seq]. exact Hs.
      * cbn [untagged saved TaskTags]. rewrite tagged_TaskTags_others.
        unfold a. cbn [untagged TaskTags]. apply filter_idem.
      * reflexivity.
      * reflexivity.
  - destruct H1 as [_ H1]. now rewrite !H1.
Qed.

(** ** Updates *)

(** X19.  A task that has been deleted cannot be updated back: whatever
    commands run after the delete, an update of its key answers 404 and
    changes nothing, provided the key had been issued. *)
Theorem deleted_task_stays_gone (key : nat) (cs : list Command) (body : Body)
        (st : Store) :
  key <= task_seq st ->
  response_of (put_tasks key body) (run cs (after (delete_tasks key) st))
  = status_error 404 "Not found"
  /\ after (put_tasks key body) (run cs (after (delete_tasks key) st))
     = run cs (after (delete_tasks key) st).
Proof.
  intros Hseq. destruct (delete_tasks_run key st) as [_ ->].
  assert (Hout : ~ In key (map id (Tasks (run cs (destroyed key st))))).
  { apply run_keeps_absent; [apply destroyed_absent|exact Hseq]. }
  apply task_row_none in Hout.
  pose proof (put_tasks_run key body (run cs (destroyed key st))) as H.
  now rewrite Hout in H.
Qed.

Lemma deleted_task_stays_gone_witness :
  1 <= task_seq buy_milk
  /\ response_of (put_tasks 1 first_update)
                 (run [Create first_update] (after (delete_tasks 1) buy_milk))
     = status_error 404 "Not found".
Proof.
  assert (H : 1 <= task_seq buy_milk) by (vm_compute; apply le_n).
  split; [exact H|].
  exact (proj1 (deleted_task_stays_gone 1 [Create first_update] first_update
                                        buy_milk H)).
Defined.

(** X20.  An accepted update, with or without a [tags] array, writes the
    title and every scalar the body supplies into the task's row, and
    the key stays the same.  A scalar the body leaves out keeps its
    stored value.  A due date that is [null] clears the column, a
    calendar date written [YYYY-MM-DD] is stored as written, and the
    empty string, which the edit form sends for no date, is stored as
    the text "Invalid date". *)
Theorem put_tasks_writes_supplied_fields (key : nat) (body : Body) (st : Store)
        (r : TaskRow) (t : string) :
  task_row st key = Some r -> body_title body = JStr t ->
  exists r',
    task_row (after (put_tasks key body) st) key = Some r'
    /\ id r' = key
    /\ title r' = t
    /\ description r' = write (body_description body) (description r)
    /\ location r' = write (body_location body) (location r)
    /\ status r' = write (body_status body) (status r)
    /\ (body_description body = JUndefined -> description r' = description r)
    /\ (body_status body = JUndefined -> status r' = status r)
    /\ (body_due_date body = JUndefined -> due_date r' = due_date r)
    /\ (body_due_date body = JNull -> due_date r' = None)
    /\ (body_due_date body = JStr "" -> due_date r' = Some "Invalid date")
    /\ (forall y m d,
          y < 100 * 100 -> Moment.calendar_date y m d = true ->
          body_due_date body = JStr (iso_date y m d) ->
          due_date r' = Some (iso_date y m d)).
Proof.
  intros Hr Ht. pose proof (put_tasks_run key body st) as H.
  rewrite Hr, Ht in H. destruct H as [_ Hst].
  exists (update_row (body_values body) r).
  assert (Hrow : task_row (after (put_tasks key body) st) key
                 = Some (update_row (body_values body) r)).
  { rewrite Hst. destruct (body_tags body) as [| |names];
      try (now apply saved_row).
    rewrite (task_row_same (untagged key (saved key (body_values body) st)))
      by apply tagged_frame.
    rewrite (task_row_same (saved key (body_values body) st)) by reflexivity.
    now apply saved_row. }
  split; [exact Hrow|]. apply task_row_key in Hr as [Hid _].
  unfold update_row, body_values. simpl. rewrite Ht.
  repeat split; try assumption; try (now intros ->).
  intros y m d Hy Hc ->. simpl. unfold DATEONLY.stringify.
  now rewrite format_iso_date.
Qed.

Lemma put_tasks_writes_supplied_fields_witness :
  task_row buy_milk 1 = Some (created_row first_update "Buy milk" empty_store)
  /\ body_title update_without_tags = JStr "Buy oat milk"
  /\ exists r',
       task_row (after (put_tasks 1 update_without_tags) buy_milk) 1 = Some r'
       /\ title r' = "Buy oat milk"
       /\ due_date r' = Some (iso_date 2026 2 1).
Proof.
  split; [reflexivity|]. split; [reflexivity|].
  destruct (put_tasks_writes_supplied_fields
              1 update_without_tags buy_milk
              (created_row first_update "Buy milk" empty_store) "Buy oat milk"
              eq_refl eq_refl)
    as (r' & Hrow & _ & Ht & _ & _ & _ & _ & _ & _ & _ & _ & Hd).
  exists r'. split; [exact Hrow|]. split; [exact Ht|].
  apply (Hd 2026 2 1); [|reflexivity|reflexivity].
  now apply Nat.ltb_lt.
Defined.

(** X21.  Saving the edit form of an existing task is always accepted,
    also with an empty title: the row takes the form's title, and the
    task's tags become exactly the names [parseTags] reads from the
    form's tags field. *)
Theorem handleUpdate_saves_form (key : nat) (editForm : TaskInput)
        (currentStatus : jsval) (st : Store) :
  consistent st -> In key (map id (Tasks st)) ->
  answers_task
    (response_of (put_tasks key (handleUpdate editForm currentStatus)) st)
    key (body_values (handleUpdate editForm currentStatus))
  /\ (exists r,
        task_row (after (put_tasks key (handleUpdate editForm currentStatus)) st) key
        = Some r
        /\ title r = form_title editForm)
  /\ (forall n,
        In n (tag_names (after (put_tasks key (handleUpdate editForm currentStatus)) st)
                        key)
        <-> In n (parseTags (tagsStr editForm))).
Proof.
  intros Hc Hin.
  set (body := handleUpdate editForm currentStatus).
  pose proof (put_tasks_run key body st) as H.
  destruct (task_row st key) as [r|] eqn:Hr;
    [|apply task_row_none in Hr; contradiction].
  change (body_title body) with (JStr (form_title editForm)) in H.
  change (body_tags body) with (TagsArray (parseTags (tagsStr editForm))) in H.
  destruct H as [Hres Hst].
  split; [fold body; rewrite Hres; apply set_values_answers|]. split.
  - exists (update_row (body_values body) r). split; [|reflexivity].
    rewrite Hst.
    rewrite (task_row_same (untagged key (saved key (body_values body) st)))
      by apply tagged_frame.
    rewrite (task_row_same (saved key (body_values body) st)) by reflexivity.
    now apply saved_row.
  - intros n.
    apply (put_tasks_replaces_tags st key body _ (form_title editForm));
      [apply (tag_keys_unique _ Hc)|assumption|reflexivity|reflexivity].
Qed.

Lemma handleUpdate_saves_form_witness :
  consistent buy_milk
  /\ In 1 (map id (Tasks buy_milk))
  /\ (forall n,
        In n (tag_names (after (put_tasks 1 (handleUpdate initialFormState JNull))
                               buy_milk) 1)
        <-> In n (parseTags (tagsStr initialFormState))).
Proof.
  assert (Hin : In 1 (map id (Tasks buy_milk))) by (now left).
  split; [exact buy_milk_consistent|]. split; [exact Hin|].
  exact (proj2 (proj2 (handleUpdate_saves_form 1 initialFormState JNull buy_milk
                                               buy_milk_consistent Hin))).
Defined.

(** X22.  The status [toggleStatus] sends is always "pending" or
    "completed", and toggling a task that has one of these two twice
    sends its first status again. *)
Theorem newStatus_toggles (s : jsval) :
  (newStatus s = "pending" \/ newStatus s = "completed")
  /\ (s = JStr "pending" \/ s = JStr "completed" ->
      JStr (newStatus (JStr (newStatus s))) = s).
Proof.
  split.
  - destruct s as [| |x]; simpl; auto.
    destruct (String.eqb x "completed"); auto.
  - intros [-> | ->]; reflexivity.
Qed.
